(** * Software electron counting: a shallow embedding of [c_electron_counting]

    The repository holds two Cython modules: the documented public module
    (with [only_integrate] and the adaptive [peak_max] threshold; module
    [Canonical] below) and an earlier iteration,
    [ElectronCounting/c_electron_counting.pyx] (module [Legacy]).

    C [float] and [double] are IEEE-754 binary32 and binary64 values, given
    by the Standard Library's executable specification [SpecFloat]; C's usual
    arithmetic conversions are written out at every operator.  The functions
    of libm the modules call ([exp], [pow], [powf], [atan]) are an interface;
    [sqrt] and [round] are exact IEEE operations and are defined here. *)

From Stdlib Require Import ZArith Bool List Lia.
From Stdlib Require Import Floats.SpecFloat.
From stdpp Require Import base tactics list.

Open Scope Z_scope.

(** ** IEEE-754 values in the two C formats *)

Definition float := spec_float.
Definition double := spec_float.

Module F32.
Definition prec := 24.
Definition emax := 128.
Definition add : float -> float -> float := SFadd prec emax.
Definition sub : float -> float -> float := SFsub prec emax.
Definition mul : float -> float -> float := SFmul prec emax.
Definition div : float -> float -> float := SFdiv prec emax.
Definition of_Z (z : Z) : float := binary_normalize prec emax z 0 false.
End F32.

Module F64.
Definition prec := 53.
Definition emax := 1024.
Definition add : double -> double -> double := SFadd prec emax.
Definition sub : double -> double -> double := SFsub prec emax.
Definition mul : double -> double -> double := SFmul prec emax.
Definition div : double -> double -> double := SFdiv prec emax.
Definition sqrt : double -> double := SFsqrt prec emax.
Definition of_Z (z : Z) : double := binary_normalize prec emax z 0 false.
(** A decimal literal [n/d] of the source text, rounded once. *)
Definition dec (n d : Z) : double := div (of_Z n) (of_Z d).
End F64.

(** Comparisons do not depend on the format (both operands are canonical
    values of the same format at every use). *)
Definition flt (a b : spec_float) : bool := SFltb a b.
Definition fle (a b : spec_float) : bool := SFleb a b.
Definition feq (a b : spec_float) : bool := SFeqb a b.
Definition fgt (a b : spec_float) : bool := SFltb b a.
Definition fge (a b : spec_float) : bool := SFleb b a.

Definition is_nan (a : spec_float) : bool :=
  match a with S754_nan => true | _ => false end.

Definition sign_bit (a : spec_float) : bool :=
  match a with
  | S754_zero s | S754_infinity s | S754_finite s _ _ => s
  | S754_nan => false
  end.

(** [(double) x] for a [float] [x]: exact. *)
Definition double_of_float (x : float) : double :=
  match x with
  | S754_finite s m e => binary_round F64.prec F64.emax s m e
  | _ => x
  end.

(** [(float) d] for a [double] [d]: round to nearest even, overflow to
    infinity. *)
Definition float_of_double (d : double) : float :=
  match d with
  | S754_finite s m e => binary_round F32.prec F32.emax s m e
  | _ => d
  end.

Definition INT_MIN : Z := - 2 ^ 31.
Definition INT_MAX : Z := 2 ^ 31 - 1.

(** [<int> v]: truncation toward zero.  Outside the range of [int] (and for
    NaN) C leaves the conversion undefined; x86-64's [cvttss2si]/[cvttsd2si]
    give [INT_MIN], which is what is written here. *)
Definition int_of_fp (v : spec_float) : Z :=
  match v with
  | S754_zero _ => 0
  | S754_finite s m e =>
      let z := cond_Zopp s (Z.shiftl (Zpos m) e) in
      if (INT_MIN <=? z) && (z <=? INT_MAX) then z else INT_MIN
  | _ => INT_MIN
  end.

(** libm's [round]: to the nearest integer, halfway cases away from zero. *)
Definition round (d : double) : double :=
  match d with
  | S754_finite s m e =>
      if 0 <=? e then d
      else
        let q := Z.shiftl (Zpos m) e in
        let half := Z.testbit (Zpos m) (- e - 1) in
        binary_normalize F64.prec F64.emax
          (cond_Zopp s (if half then q + 1 else q)) 0 s
  | _ => d
  end.

Declare Scope f32_scope.
Delimit Scope f32_scope with f32.
Infix "+" := F32.add : f32_scope.
Infix "-" := F32.sub : f32_scope.
Infix "*" := F32.mul : f32_scope.
Infix "/" := F32.div : f32_scope.

Declare Scope f64_scope.
Delimit Scope f64_scope with f64.
Infix "+" := F64.add : f64_scope.
Infix "-" := F64.sub : f64_scope.
Infix "*" := F64.mul : f64_scope.
Infix "/" := F64.div : f64_scope.

(** ** The libm interface *)

Class Libm := {
  exp : double -> double;
  pow : double -> double -> double;
  powf : float -> float -> float;
  atan : double -> double
}.

(** The special cases the programs' control flow rests on, all from Annex F
    of the C standard (F.10.3.1 [exp], F.10.4.4 [pow]) and the fact that a
    square is not negative. *)
Class AnnexF (L : Libm) : Prop := {
  exp_nan : exp S754_nan = S754_nan;
  exp_ninf : exp (S754_infinity true) = S754_zero false;
  pow_sq_sign : forall x, sign_bit (pow x (F64.of_Z 2)) = false;
  powf_zero_sq : powf (S754_zero false) (F32.of_Z 2) = S754_zero false
}.

(** ** A reference libm

    An executable instance of the interface, used where a run of the
    programs has to be evaluated.  Every function is computed in fixed point
    with [N] fractional bits and rounded once to the target format, so its
    results are within one unit in the last place of the mathematical value
    (and correctly rounded except when that value lies within [2^-100] of a
    rounding boundary). *)

Module RefLibm.
Definition N : Z := 160.
Definition one : Z := 2 ^ N.
Definition fmul (a b : Z) : Z := Z.shiftr (a * b) N.
Definition to_fx (m : positive) (e : Z) : Z := Z.shiftl (Zpos m) (e + N).

(** [acc + sum_{j >= k} term * r^(j-k+1) * (k-1)!/j!], [n] terms. *)
Fixpoint exp_series (n : nat) (k term acc r : Z) : Z :=
  match n with
  | O => acc
  | S n' =>
      let term' := fmul term r / k in
      exp_series n' (k + 1) term' (acc + term') r
  end.
Definition exp_fx (r : Z) : Z := exp_series 60 1 one one r.

(** [ln 2 = sum_{k >= 1} 1 / (k 2^k)]. *)
Fixpoint ln2_series (n : nat) (k acc : Z) : Z :=
  match n with
  | O => acc
  | S n' => ln2_series n' (k + 1) (acc + one / (k * 2 ^ k))
  end.
Definition ln2 : Z := Eval vm_compute in ln2_series 170 1 0.

Definition round_pos (prec emax : Z) (v e : Z) : spec_float :=
  match v with
  | Zpos p => binary_round prec emax false p e
  | _ => S754_zero false
  end.

Definition exp (d : double) : double :=
  match d with
  | S754_nan => S754_nan
  | S754_infinity true => S754_zero false
  | S754_infinity false => d
  | S754_zero _ => F64.of_Z 1
  | S754_finite s m e =>
      if 11 <? Zpos (digits2_pos m) + e
      then (if s then S754_zero false else S754_infinity false)
      else
        let x := cond_Zopp s (to_fx m e) in
        let k := (2 * x + ln2) / (2 * ln2) in
        round_pos F64.prec F64.emax (exp_fx (x - k * ln2)) (k - N)
  end.

(** The exponent [y] as a natural number, when it is one. *)
Definition nat_exponent (y : spec_float) : option Z :=
  match y with
  | S754_zero _ => Some 0
  | S754_finite false m e =>
      let n := Z.shiftl (Zpos m) e in
      if Z.shiftl n (- e) =? Zpos m then Some n else None
  | _ => None
  end.

(** [x^y] for the exponents the programs raise to: natural numbers (2, and
    the candidate count 0..19).  Other exponents are outside this instance
    and give NaN. *)
Definition pow_gen (prec emax : Z) (x y : spec_float) : spec_float :=
  match nat_exponent y with
  | Some 0 => binary_normalize prec emax 1 0 false
  | Some n =>
      match x with
      | S754_nan => S754_nan
      | S754_zero s => S754_zero (s && Z.odd n)
      | S754_infinity s => S754_infinity (s && Z.odd n)
      | S754_finite s m e =>
          binary_round prec emax (s && Z.odd n) (Pos.pow m (Z.to_pos n)) (e * n)
      end
  | None => S754_nan
  end.

(** [acc + sum_{j} (-1)^j t^(2j+1)/(2j+1)] from the term of divisor [k]
    on, [pw] the previous signed odd power and [t2 = t^2]. *)
Fixpoint atan_series (n : nat) (k pw t2 acc : Z) : Z :=
  match n with
  | O => acc
  | S n' =>
      let pw' := - fmul pw t2 in
      atan_series n' (k + 2) pw' t2 (acc + pw' / k)
  end.
Definition atan_small (t : Z) : Z := atan_series 60 3 t (fmul t t) t.

(** Machin: [pi/4 = 4 atan(1/5) - atan(1/239)]. *)
Definition pi_fx : Z :=
  Eval vm_compute in 4 * (4 * atan_small (one / 5) - atan_small (one / 239)).

(** [tan (a/2)] from [t = tan a]: [t / (1 + sqrt (1 + t^2))]. *)
Definition halve (t : Z) : Z :=
  (t * one) / (one + Z.sqrt ((one + fmul t t) * one)).
(** [atan t] for [0 <= t <= 1]. *)
Definition atan_unit (t : Z) : Z := 8 * atan_small (halve (halve (halve t))).

Definition atan (d : double) : double :=
  match d with
  | S754_nan => S754_nan
  | S754_zero _ => d
  | S754_infinity s =>
      let r := round_pos F64.prec F64.emax pi_fx (- N - 1) in
      if s then SFopp r else r
  | S754_finite s m e =>
      let mag := Zpos (digits2_pos m) + e in
      if mag <? - 60 then d
      else
        let v :=
          if 80 <? mag then pi_fx / 2
          else
            let a := to_fx m e in
            if a <=? one then atan_unit a
            else pi_fx / 2 - atan_unit (one * one / a) in
        let r := round_pos F64.prec F64.emax v (- N) in
        if s then SFopp r else r
  end.
End RefLibm.

#[export] Instance ref_libm : Libm := {|
  exp := RefLibm.exp;
  pow := RefLibm.pow_gen F64.prec F64.emax;
  powf := RefLibm.pow_gen F32.prec F32.emax;
  atan := RefLibm.atan
|}.

(** ** Module state, faults and the C library's generator *)

(** [rand()] of the C library: the 0-based [n]-th call since the process'
    seed returns [rand_stream n]. *)
Class Rand := {
  RAND_MAX : Z;
  rand_stream : nat -> Z
}.

Definition factorials_table_length : Z := 20.

(** [cdef long factorials_table[factorials_table_length]] (zero-initialised
    static storage) and the generator's position. *)
Record globals := Globals {
  factorials_table : list Z;
  rand_calls : nat
}.

Definition initial_globals : globals :=
  Globals (replicate (Z.to_nat factorials_table_length) 0) 0.

(** [boundscheck=False]: an access outside an array is not caught by the
    program; the embedding stops there with [OutOfBounds].  [OutOfFuel] is
    the embedding's bound on the iterations of a [while] loop. *)
Inductive fault := OutOfBounds | OutOfFuel.

Inductive outcome (A : Type) :=
  | Ok (a : A)
  | Fault (f : fault).
Arguments Ok {A} a.
Arguments Fault {A} f.

Definition M (A : Type) : Type := globals -> outcome (A * globals).

Definition ret {A} (a : A) : M A := fun g => Ok (a, g).
Definition bind {A B} (m : M A) (k : A -> M B) : M B :=
  fun g => match m g with
           | Ok (a, g') => k a g'
           | Fault f => Fault f
           end.
Definition fail {A} (f : fault) : M A := fun _ => Fault f.
Definition get_table : M (list Z) := fun g => Ok (factorials_table g, g).
Definition put_table (t : list Z) : M unit :=
  fun g => Ok (tt, Globals t (rand_calls g)).
Definition lift {A} (o : option A) : M A :=
  match o with Some a => ret a | None => fail OutOfBounds end.

Notation "'let*' x ':=' m 'in' k" := (bind m (fun x => k))
  (at level 10, x name, m at level 100, k at level 200).

Definition rand `{Rand} : M Z :=
  fun g => Ok (rand_stream (rand_calls g),
               Globals (factorials_table g) (S (rand_calls g))).

(** C [long] on the LP64 platforms Cython builds this for: 64 bits. *)
Definition wrap_long (z : Z) : Z :=
  let m := z mod 2 ^ 64 in if m <? 2 ^ 63 then m else m - 2 ^ 64.

(** *** Typed memoryviews [float[:, :]]

    Under the directives of both files ([wraparound] on by default,
    [boundscheck=False]) a negative index counts from the end and nothing is
    checked: [None] is an access outside the axis. *)
Abbreviation array2 := (list (list float)).

Definition mv_index (dim i : Z) : option nat :=
  let j := if i <? 0 then i + dim else i in
  if (0 <=? j) && (j <? dim) then Some (Z.to_nat j) else None.

Definition mv_get (a : array2) (k i : Z) : option float :=
  match mv_index (Z.of_nat (length a)) k with
  | Some k' =>
      match a !! k' with
      | Some row =>
          match mv_index (Z.of_nat (length row)) i with
          | Some i' => row !! i'
          | None => None
          end
      | None => None
      end
  | None => None
  end.

Definition mv_set (a : array2) (k i : Z) (v : float) : option array2 :=
  match mv_index (Z.of_nat (length a)) k with
  | Some k' =>
      match a !! k' with
      | Some row =>
          match mv_index (Z.of_nat (length row)) i with
          | Some i' => Some (<[k' := <[i' := v]> row]> a)
          | None => None
          end
      | None => None
      end
  | None => None
  end.

(** [image.shape] and [numpy.zeros(image.shape, dtype=numpy.float32)]. *)
Definition shape0 (a : array2) : Z := Z.of_nat (length a).
Definition shape1 (a : array2) : Z := Z.of_nat (length (hd [] a)).
Definition zeros (a : array2) : array2 :=
  replicate (length a) (replicate (length (hd [] a)) (S754_zero false)).

(** A [h] by [w] array. *)
Definition rectangular (h w : Z) (a : array2) : Prop :=
  Z.of_nat (length a) = h /\ Forall (fun row => Z.of_nat (length row) = w) a.

(** [create_factorials_table], the same text in both files. *)
Fixpoint create_factorials_loop (n : nat) (counter length : Z) (tbl : list Z)
  : list Z :=
  match n with
  | O => tbl
  | S n' =>
      if counter <? length then
        create_factorials_loop n' (counter + 1) length
          (<[Z.to_nat counter :=
               wrap_long (tbl !!! Z.to_nat (counter - 1) * counter)]> tbl)
      else tbl
  end.

Definition create_factorials_table (length : Z) : M unit :=
  let* tbl := get_table in
  put_table (create_factorials_loop (Z.to_nat length) 1 length (<[0%nat := 1]> tbl)).

(** The scan state of one row and the result array it writes. *)
Record scan := Scan {
  i : Z;
  index : Z;
  integral : float;
  peak_max : float;
  result : array2
}.

(** The locals of [c_electron_counting] that stay fixed during the scan. *)
Record consts := Consts {
  image : array2;
  width : Z;
  baseline : float;
  threshold : float;
  peak_height : float;
  peaklength : Z;
  counts_divisor : float;
  only_integrate : bool
}.

(** [<int>(<float>rand() / <float>RAND_MAX * <float>peaklength)] *)
Definition randnum_of `{Rand} (r peaklength : Z) : Z :=
  int_of_fp (F32.of_Z r / F32.of_Z RAND_MAX * F32.of_Z peaklength)%f32.

(** ** The public module ([electron_counting], [find_most_likely_counts]) *)

Module Canonical.
Section Program.
Context {L : Libm} {R : Rand}.

Definition integration_range_gamma : double := F64.of_Z 2.
Definition pi : double := F64.dec 314159 100000.

(** [(<float>counts)**2]: both operands are [float] in C, so Cython calls
    [powf]. *)
Definition c_count_probability (tbl : list Z) (counts : Z) (x : float)
  : float :=
  let c : float := F32.of_Z counts in
  let c2 : double := double_of_float (powf c (F32.of_Z 2)) in
  float_of_double
    ((F64.of_Z 1 / F64.sqrt (F64.of_Z 2 * pi * c2)
      * exp (F64.of_Z (-1)
             * pow (double_of_float (x - c)%f32) (F64.of_Z 2)
             / (F64.of_Z 2 * c2)))
     * (pow (double_of_float c) (double_of_float c)
        * exp (F64.of_Z (-1) * double_of_float c)
        / double_of_float (F32.of_Z (tbl !!! Z.to_nat counts))))%f64.

(** The zero fast path: [round(x+0.25) == 0.0]. *)
Definition zero_fast_path (x : float) : bool :=
  feq (round (double_of_float x + F64.dec 25 100)%f64) (F64.of_Z 0).

(** [while counter < factorials_table_length], with
    [remaining = factorials_table_length - counter]. *)
Fixpoint count_search (tbl : list Z) (remaining : nat) (counter : Z)
    (max_probability x : float) : float :=
  match remaining with
  | O => F32.of_Z factorials_table_length
  | S r =>
      let current_probability := c_count_probability tbl counter x in
      if flt current_probability max_probability
      then F32.of_Z (counter - 1)
      else count_search tbl r (counter + 1) current_probability x
  end.

Definition c_find_most_likely_counts (tbl : list Z) (x : float) : float :=
  if zero_fast_path x then S754_zero false
  else count_search tbl (Z.to_nat factorials_table_length) 0 (S754_zero false) x.

(** The same search, instrumented: the [counts] arguments of the calls of
    [c_count_probability], in call order. *)
Fixpoint count_search_evals (tbl : list Z) (remaining : nat) (counter : Z)
    (max_probability x : float) : list Z :=
  match remaining with
  | O => []
  | S r =>
      let current_probability := c_count_probability tbl counter x in
      counter ::
        (if flt current_probability max_probability then []
         else count_search_evals tbl r (counter + 1) current_probability x)
  end.

Definition c_find_most_likely_counts_evals (tbl : list Z) (x : float)
  : list Z :=
  if zero_fast_path x then []
  else count_search_evals tbl (Z.to_nat factorials_table_length) 0
         (S754_zero false) x.

(** One iteration of [while i < width] in row [k]. *)
Definition scan_step (c : consts) (k : Z) (s : scan) : M scan :=
  let* s1 :=
    if negb (index s =? -1) then
      let* x := lift (mv_get (image c) k (i s)) in
      if fle (x - baseline c)%f32 (peak_max s * threshold c)%f32
         || (peaklength c <=? i s - index s)
         || (i s =? width c - 1)
      then
        let* v :=
          if only_integrate c then ret (integral s)
          else
            let* tbl := get_table in
            ret (c_find_most_likely_counts tbl
                   (integral s / counts_divisor c)%f32) in
        let* res := lift (mv_set (result s) k (index s) v) in
        let* x := lift (mv_get (image c) k (i s)) in
        if fgt (x - baseline c)%f32 (peak_max s * threshold c)%f32 then
          let* r := rand in
          let randnum := randnum_of r (peaklength c) in
          let i' := index s + 1 + randnum in
          let* y := lift (mv_get (image c) k i') in
          ret (Scan i' i' y (peak_height c) res)
        else
          ret (Scan (i s) (-1) (S754_zero false) (peak_height c) res)
      else
        ret (Scan (i s) (index s)
               (integral s + (x - baseline c))%f32
               (if fgt x (peak_max s) then x else peak_max s)
               (result s))
    else ret s in
  let* s2 :=
    if index s1 =? -1 then
      let* x := lift (mv_get (image c) k (i s1)) in
      if fgt (x - baseline c)%f32 (peak_max s1 * threshold c)%f32 then
        ret (Scan (i s1) (i s1) x (peak_max s1) (result s1))
      else ret s1
    else ret s1 in
  ret (Scan (i s2 + 1) (index s2) (integral s2) (peak_max s2) (result s2)).

Fixpoint scan_row (fuel : nat) (c : consts) (k : Z) (s : scan) : M scan :=
  if i s <? width c then
    match fuel with
    | O => fail OutOfFuel
    | S fuel' =>
        let* s' := scan_step c k s in
        scan_row fuel' c k s'
    end
  else ret s.

(** [for k in range(height)], [n] rows to go from row [k]. *)
Fixpoint scan_rows (fuel : nat) (c : consts) (n : nat) (k : Z)
    (res : array2) : M array2 :=
  match n with
  | O => ret res
  | S n' =>
      let* s := scan_row fuel c k
                  (Scan 0 (-1) (S754_zero false) (peak_height c) res) in
      scan_rows fuel c n' (k + 1) (result s)
  end.

Definition scan_consts (image : array2) (width : Z)
    (baseline countlevel peakwidth : float) (only_integrate : bool)
  : consts :=
  let threshold : float :=
    float_of_double
      (F64.of_Z 1 / (F64.of_Z 1 + pow integration_range_gamma (F64.of_Z 2)))%f64 in
  let peak_height : float :=
    float_of_double
      (double_of_float (countlevel / peakwidth)%f32
       / (atan (F64.of_Z 10) - atan (F64.of_Z (-10))))%f64 in
  let peaklength : Z :=
    int_of_fp
      (round (F64.of_Z 2 * integration_range_gamma
              * double_of_float peakwidth)%f64) in
  let counts_divisor : float :=
    (countlevel - baseline * F32.of_Z peaklength)%f32 in
  Consts image width baseline threshold peak_height peaklength
    counts_divisor only_integrate.

(** The result memoryview is written in place; the embedding returns it. *)
Definition c_electron_counting (fuel : nat) (image result : array2)
    (height width : Z) (baseline countlevel peakwidth : float)
    (only_integrate : bool) : M array2 :=
  let* _ := create_factorials_table factorials_table_length in
  scan_rows fuel
    (scan_consts image width baseline countlevel peakwidth only_integrate)
    (Z.to_nat height) 0 result.

(** The Python entry point; its float arguments arrive as Python floats. *)
Definition electron_counting (fuel : nat) (image : array2)
    (baseline countlevel peakwidth : double) (only_integrate : bool)
  : M array2 :=
  c_electron_counting fuel image (zeros image) (shape0 image) (shape1 image)
    (float_of_double baseline) (float_of_double countlevel)
    (float_of_double peakwidth) only_integrate.

(** [for i in range(width)] in row [k], [n] columns to go from [i]. *)
Fixpoint counts_cols (image : array2) (baseline countlevel : float)
    (k : Z) (n : nat) (i : Z) (res : array2) : M array2 :=
  match n with
  | O => ret res
  | S n' =>
      let* x := lift (mv_get image k i) in
      let* tbl := get_table in
      let* res' :=
        lift (mv_set res k i
                (c_find_most_likely_counts tbl
                   ((x - baseline) / countlevel)%f32)) in
      counts_cols image baseline countlevel k n' (i + 1) res'
  end.

Fixpoint counts_rows (image : array2) (width : Z)
    (baseline countlevel : float) (n : nat) (k : Z) (res : array2)
  : M array2 :=
  match n with
  | O => ret res
  | S n' =>
      let* res' :=
        counts_cols image baseline countlevel k (Z.to_nat width) 0 res in
      counts_rows image width baseline countlevel n' (k + 1) res'
  end.

Definition c_find_most_likely_counts_image (image result : array2)
    (height width : Z) (baseline countlevel : float) : M array2 :=
  let* _ := create_factorials_table factorials_table_length in
  counts_rows image width baseline countlevel (Z.to_nat height) 0 result.

Definition find_most_likely_counts (image : array2)
    (baseline countlevel : double) : M array2 :=
  c_find_most_likely_counts_image image (zeros image) (shape0 image)
    (shape1 image) (float_of_double baseline) (float_of_double countlevel).
End Program.
End Canonical.

(** ** The earlier iteration, [ElectronCounting/c_electron_counting.pyx] *)

Module Legacy.
Section Program.
Context {L : Libm} {R : Rand}.

Definition count_probability (tbl : list Z) (counts : Z) (x : float)
  : float :=
  let c : float := F32.of_Z counts in
  let c2 : double := double_of_float (powf c (F32.of_Z 2)) in
  float_of_double
    ((F64.of_Z 1 / F64.sqrt (F64.of_Z 2 * F64.dec 314159 100000 * c2)
      * exp (F64.of_Z (-1)
             * pow (double_of_float (x - c)%f32) (F64.of_Z 2)
             / (F64.of_Z 2 * c2)))
     * (pow (double_of_float c) (double_of_float c)
        * exp (F64.of_Z (-1) * double_of_float c)
        / double_of_float (F32.of_Z (tbl !!! Z.to_nat counts))))%f64.

(** The zero fast path: [round(x) == 0.0]. *)
Definition zero_fast_path (x : float) : bool :=
  feq (round (double_of_float x)) (F64.of_Z 0).

Fixpoint count_search (tbl : list Z) (remaining : nat) (counter : Z)
    (max_probability x : float) : float :=
  match remaining with
  | O => F32.of_Z factorials_table_length
  | S r =>
      let current_probability := count_probability tbl counter x in
      if flt current_probability max_probability
      then F32.of_Z (counter - 1)
      else count_search tbl r (counter + 1) current_probability x
  end.

Definition find_most_likely_counts (tbl : list Z) (x : float) : float :=
  if zero_fast_path x then S754_zero false
  else count_search tbl (Z.to_nat factorials_table_length) 0 (S754_zero false) x.

Fixpoint count_search_evals (tbl : list Z) (remaining : nat) (counter : Z)
    (max_probability x : float) : list Z :=
  match remaining with
  | O => []
  | S r =>
      let current_probability := count_probability tbl counter x in
      counter ::
        (if flt current_probability max_probability then []
         else count_search_evals tbl r (counter + 1) current_probability x)
  end.

Definition find_most_likely_counts_evals (tbl : list Z) (x : float)
  : list Z :=
  if zero_fast_path x then []
  else count_search_evals tbl (Z.to_nat factorials_table_length) 0
         (S754_zero false) x.

(** One iteration of [while i < width] in row [k] ([peak_height],
    [peak_max] and [only_integrate] do not exist in this file; the state's
    [peak_max] is carried unchanged). *)
Definition scan_step (c : consts) (k : Z) (s : scan) : M scan :=
  let* s1 :=
    if negb (index s =? -1) then
      let* x := lift (mv_get (image c) k (i s)) in
      if flt (x - baseline c)%f32 (threshold c)
         || (peaklength c <=? i s - index s)
         || (i s =? width c - 1)
      then
        let* tbl := get_table in
        let divided_counts := (integral s / counts_divisor c)%f32 in
        let* res :=
          lift (mv_set (result s) k (index s)
                  (find_most_likely_counts tbl divided_counts)) in
        let* x := lift (mv_get (image c) k (i s)) in
        if fge (x - baseline c)%f32 (threshold c) then
          let* r := rand in
          let randnum := randnum_of r (peaklength c) in
          let i' := index s + 1 + randnum in
          let* y := lift (mv_get (image c) k i') in
          ret (Scan i' i' y (peak_max s) res)
        else
          ret (Scan (i s) (-1) (S754_zero false) (peak_max s) res)
      else
        ret (Scan (i s) (index s)
               (integral s + (x - baseline c))%f32
               (peak_max s) (result s))
    else ret s in
  let* s2 :=
    if index s1 =? -1 then
      let* x := lift (mv_get (image c) k (i s1)) in
      if fge (x - baseline c)%f32 (threshold c) then
        ret (Scan (i s1) (i s1) x (peak_max s1) (result s1))
      else ret s1
    else ret s1 in
  ret (Scan (i s2 + 1) (index s2) (integral s2) (peak_max s2) (result s2)).

Fixpoint scan_row (fuel : nat) (c : consts) (k : Z) (s : scan) : M scan :=
  if i s <? width c then
    match fuel with
    | O => fail OutOfFuel
    | S fuel' =>
        let* s' := scan_step c k s in
        scan_row fuel' c k s'
    end
  else ret s.

Fixpoint scan_rows (fuel : nat) (c : consts) (n : nat) (k : Z)
    (res : array2) : M array2 :=
  match n with
  | O => ret res
  | S n' =>
      let* s := scan_row fuel c k
                  (Scan 0 (-1) (S754_zero false) (S754_zero false) res) in
      scan_rows fuel c n' (k + 1) (result s)
  end.

(** [integration_range_gamma] is an [unsigned short] here, set to 4. *)
Definition integration_range_gamma : Z := 4.

Definition scan_consts (image : array2) (width : Z)
    (baseline countlevel peakwidth : float) : consts :=
  let g : float := F32.of_Z integration_range_gamma in
  let threshold : float :=
    float_of_double
      (double_of_float countlevel
       / (F64.of_Z 1
          + pow (F64.of_Z integration_range_gamma) (F64.of_Z 2)))%f64 in
  let counts_divisor : float :=
    float_of_double
      (double_of_float (countlevel * peakwidth)%f32
       * (atan (double_of_float g)
          - atan (F64.of_Z (-1) * double_of_float g)))%f64 in
  let peaklength : Z :=
    int_of_fp
      (round (F64.of_Z 2 * double_of_float g
              * double_of_float peakwidth)%f64) in
  let counts_divisor : float :=
    (counts_divisor - baseline * F32.of_Z peaklength)%f32 in
  Consts image width baseline threshold (S754_zero false) peaklength
    counts_divisor false.

Definition c_electron_counting (fuel : nat) (image result : array2)
    (height width : Z) (baseline countlevel peakwidth : float)
  : M array2 :=
  let* _ := create_factorials_table factorials_table_length in
  scan_rows fuel (scan_consts image width baseline countlevel peakwidth)
    (Z.to_nat height) 0 result.

Definition electron_counting (fuel : nat) (image : array2)
    (baseline countlevel peakwidth : double) : M array2 :=
  c_electron_counting fuel image (zeros image) (shape0 image) (shape1 image)
    (float_of_double baseline) (float_of_double countlevel)
    (float_of_double peakwidth).
End Program.
End Legacy.

(** ** The factorial table the claims speak of *)

Fixpoint factorial (n : nat) : Z :=
  match n with
  | O => 1
  | S n' => Z.of_nat n * factorial n'
  end.

Definition table20 : list Z := map factorial (seq 0 20).

(** ** Orders on sequences of probabilities *)

(** [p lo], ..., [p hi] rises to a peak and falls from it, in the order of
    IEEE comparison (so every member is a number). *)
Definition unimodal (p : Z -> float) (lo hi : Z) : Prop :=
  exists m, lo <= m <= hi
    /\ (forall j, lo <= j < m -> fle (p j) (p (j + 1)) = true)
    /\ (forall j, m <= j < hi -> fle (p (j + 1)) (p j) = true).

(** [n] is the first candidate at which the probability [p n] is smaller
    than the one before it. *)
Definition first_decrease (p : Z -> float) (n : Z) : Prop :=
  1 <= n < factorials_table_length
  /\ flt (p n) (p (n - 1)) = true
  /\ forall j, 1 <= j < n -> flt (p j) (p (j - 1)) = false.

(** What [max_probability] holds when candidate [n] is compared: the
    initial 0 for [n = 0], the probability of [n - 1] after that. *)
Definition previous_probability `{Libm} (tbl : list Z) (x : float) (n : Z)
  : float :=
  if n =? 0 then S754_zero false
  else Canonical.c_count_probability tbl (n - 1) x.


(** A generator that returns [v] at every call, with glibc's [RAND_MAX]. *)
Definition constant_rand (v : Z) : Rand :=
  {| RAND_MAX := 2147483647; rand_stream := fun _ => v |}.

(** Decimal literals of the examples, as Python passes them ([double]) and
    as an image array holds them ([float]). *)
Definition py (n d : Z) : double := F64.dec n d.
Definition px (n d : Z) : float := float_of_double (F64.dec n d).

(** A computation that leaves [factorials_table] as it found it. *)
Definition preserves_table {A} (m : M A) : Prop :=
  forall g a g', m g = Ok (a, g') -> factorials_table g' = factorials_table g.

(** Example rows: a pulse that lasts until the last column, and a pulse of
    six columns followed by two quiet ones. *)
Definition row_pulse_at_end : array2 := [[px 0 1; px 1 1; px 1 1]].
Definition row_wide_pulse : array2 :=
  [[px 1 1; px 1 1; px 1 1; px 1 1; px 1 1; px 1 1; px 0 1; px 0 1]].
Definition table_built : globals := Globals table20 0.

(** Three rows, the middle one with its only pulse in the last column. *)
Definition rows_pulse_at_last_column : array2 :=
  [[px 0 1; px 1 1; px 0 1];
   [px 0 1; px 0 1; px 1 1];
   [px 0 1; px 1 1; px 0 1]].

(** A computation that, when it ends, ends with a value satisfying [Q]. *)
Definition ensures {A} (Q : A -> Prop) (m : M A) : Prop :=
  forall g a g', m g = Ok (a, g') -> Q a.

(** The column below which the row scan will not start a peak any more:
    the start of the active peak, or the column before the current one. *)
Definition scan_low (s : scan) : Z :=
  if index s =? -1 then i s - 1 else index s.

(** The row scan's variant. *)
Definition scan_measure (w : Z) (s : scan) : Z :=
  (w - scan_low s) * (w + 2) + (w - i s).

Definition scan_inv (w : Z) (s : scan) : Prop :=
  0 <= i s <= w /\ (index s = -1 \/ 0 <= index s < i s).

(** A computation that never stops for lack of fuel. *)
Definition within_fuel {A} (m : M A) : Prop :=
  forall g, m g <> Fault OutOfFuel.

(** The state after [m] iterations of a row's [while i < width] loop with
    body [step] (or at the loop's exit, when that comes first). *)
Fixpoint iterations (step : scan -> M scan) (w : Z) (m : nat) (s : scan)
  : M scan :=
  match m with
  | O => ret s
  | S m' =>
      if i s <? w then
        let* s' := step s in
        iterations step w m' s'
      else ret s
  end.
(** * Properties *)

(** ** IEEE facts *)

Definition signed_as (s : bool) (r : spec_float) : Prop :=
  match r with
  | S754_nan => True
  | S754_zero s' | S754_infinity s' | S754_finite s' _ _ => s' = s
  end.

Lemma binary_round_aux_signed prec emax s m e l :
  signed_as s (binary_round_aux prec emax s m e l).
Proof.
  unfold binary_round_aux.
  destruct (shr_fexp prec emax m e l) as [mrs e'].
  destruct (shr_fexp prec emax _ e' loc_Exact) as [mrs' e''].
  destruct (shr_m mrs'); simpl; auto.
  destruct (e'' <=? emax - prec); simpl; auto.
Qed.

Lemma binary_round_signed prec emax s m e :
  signed_as s (binary_round prec emax s m e).
Proof.
  unfold binary_round.
  destruct (shl_align m e _) as [mz ez].
  apply binary_round_aux_signed.
Qed.

Lemma signed_as_false_sign r : signed_as false r -> sign_bit r = false.
Proof. destruct r; simpl; auto. Qed.

Ltac order_cases :=
  repeat match goal with
  | |- context [ (?a ?= ?b)%Z ] => destruct (Z.compare_spec a b)
  | H : context [ (?a ?= ?b)%Z ] |- _ => destruct (Z.compare_spec a b)
  | |- context [ Pos.compare_cont Eq ?a ?b ] =>
      change (Pos.compare_cont Eq a b) with (Pos.compare a b);
      destruct (Pos.compare_spec a b)
  | H : context [ Pos.compare_cont Eq ?a ?b ] |- _ =>
      change (Pos.compare_cont Eq a b) with (Pos.compare a b) in H;
      destruct (Pos.compare_spec a b)
  end;
  simpl in *; try discriminate; try reflexivity; try lia.

Ltac by_float_cases a b :=
  unfold flt, fle, SFltb, SFleb;
  destruct a as [[]|[]| |[] ?ma ?ea], b as [[]|[]| |[] ?mb ?eb];
  simpl; try discriminate; try reflexivity; intros; order_cases.

Lemma fle_trans a b c : fle a b = true -> fle b c = true -> fle a c = true.
Proof.
  unfold fle, SFleb.
  destruct a as [[]|[]| |[] ma ea], b as [[]|[]| |[] mb eb],
    c as [[]|[]| |[] mc ec]; simpl; try discriminate; try reflexivity;
    intros H1 H2; order_cases.
Qed.

Lemma flt_not_fle a b : flt a b = true -> fle b a = false.
Proof. by_float_cases a b. Qed.

Lemma fle_not_flt a b : fle a b = true -> flt b a = false.
Proof. by_float_cases a b. Qed.

Lemma fle_not_flt_sym a b :
  fle b a = true -> flt b a = false -> fle a b = true.
Proof. by_float_cases a b. Qed.

Lemma flt_fle_refl_r a b : flt a b = true -> fle b b = true.
Proof. by_float_cases a b. Qed.

Lemma flt_nan_l b : flt S754_nan b = false.
Proof. reflexivity. Qed.

Lemma flt_nan_r a : flt a S754_nan = false.
Proof. destruct a; reflexivity. Qed.

(** ** The reference libm meets the interface's special cases *)

#[export] Instance ref_libm_AnnexF : AnnexF ref_libm.
Proof.
  split.
  - reflexivity.
  - reflexivity.
  - intros x. simpl. unfold RefLibm.pow_gen.
    change (RefLibm.nat_exponent (F64.of_Z 2)) with (Some 2).
    destruct x as [s | s | | s m e]; simpl; try apply andb_false_r.
    + reflexivity.
    + rewrite andb_false_r. apply signed_as_false_sign, binary_round_signed.
  - reflexivity.
Qed.

(** ** The count search *)

Lemma previous_probability_succ `{Libm} tbl x c :
  0 <= c ->
  previous_probability tbl x (c + 1) = Canonical.c_count_probability tbl c x.
Proof.
  intros Hc. unfold previous_probability.
  destruct (Z.eqb_spec (c + 1) 0) as [E | _]; [lia |].
  f_equal. lia.
Qed.

Lemma count_probability_zero_nan `{AnnexF} tbl x :
  Canonical.c_count_probability tbl 0 x = S754_nan.
Proof.
  unfold Canonical.c_count_probability.
  change (F32.of_Z 0) with (S754_zero false).
  rewrite powf_zero_sq.
  change (double_of_float (S754_zero false)) with (S754_zero false).
  set (p := pow _ (F64.of_Z 2)).
  assert (Hp : sign_bit p = false) by apply pow_sq_sign.
  set (A := (F64.of_Z 1
             / F64.sqrt (F64.of_Z 2 * Canonical.pi * S754_zero false))%f64).
  assert (HA : A = S754_infinity false) by (vm_compute; reflexivity).
  rewrite HA.
  set (d := (F64.of_Z 2 * S754_zero false)%f64).
  assert (Hd : d = S754_zero false) by (vm_compute; reflexivity).
  rewrite Hd.
  assert (HB : (S754_infinity false
                * exp (F64.of_Z (-1) * p / S754_zero false))%f64 = S754_nan).
  { destruct p as [s | s | | s m e]; simpl in Hp; subst.
    - simpl. rewrite exp_nan. reflexivity.
    - vm_compute (F64.of_Z (-1) * S754_infinity false / S754_zero false)%f64.
      rewrite exp_ninf. reflexivity.
    - simpl. rewrite exp_nan. reflexivity.
    - unfold F64.mul at 2.
      change (F64.of_Z (-1)) with (S754_finite true 4503599627370496 (-52)).
      unfold SFmul.
      pose proof (binary_round_aux_signed F64.prec F64.emax (xorb true false)
                    (Z.pos (4503599627370496 * m)) (-52 + e) loc_Exact) as Hs.
      destruct (binary_round_aux _ _ _ _ _ _) as [s | s | | s m' e'];
        simpl in Hs; subst; simpl.
      + rewrite exp_nan. reflexivity.
      + rewrite exp_ninf. reflexivity.
      + rewrite exp_nan. reflexivity.
      + rewrite exp_ninf. reflexivity. }
  rewrite HB. reflexivity.
Qed.

#[local] Opaque Canonical.c_count_probability.

Lemma count_search_S `{Libm} tbl r c m x :
  Canonical.count_search tbl (S r) c m x
  = if flt (Canonical.c_count_probability tbl c x) m
    then F32.of_Z (c - 1)
    else Canonical.count_search tbl r (c + 1)
           (Canonical.c_count_probability tbl c x) x.
Proof. reflexivity. Qed.

Lemma count_search_decrease `{Libm} tbl x r : forall c n,
  0 <= c -> c <= n < c + Z.of_nat r ->
  flt (Canonical.c_count_probability tbl n x)
      (previous_probability tbl x n) = true ->
  (forall j, c <= j < n ->
     flt (Canonical.c_count_probability tbl j x)
         (previous_probability tbl x j) = false) ->
  Canonical.count_search tbl r c (previous_probability tbl x c) x
  = F32.of_Z (n - 1).
Proof.
  induction r as [| r IH]; intros c n Hc Hn Hdec Hmin; [lia |].
  rewrite count_search_S. destruct (Z.eq_dec c n) as [-> | Hne].
  - rewrite Hdec. reflexivity.
  - rewrite Hmin by lia.
    rewrite <- (previous_probability_succ tbl x c Hc).
    apply IH; try lia; [assumption |].
    intros j Hj. apply Hmin. lia.
Qed.

Lemma count_search_cap `{Libm} tbl x r : forall c,
  0 <= c ->
  (forall j, c <= j < c + Z.of_nat r ->
     flt (Canonical.c_count_probability tbl j x)
         (previous_probability tbl x j) = false) ->
  Canonical.count_search tbl r c (previous_probability tbl x c) x
  = F32.of_Z factorials_table_length.
Proof.
  induction r as [| r IH]; intros c Hc Hno; [reflexivity |].
  rewrite count_search_S. rewrite Hno by lia.
  rewrite <- (previous_probability_succ tbl x c Hc).
  apply IH; [lia |]. intros j Hj. apply Hno. lia.
Qed.

(** Either a first decrease is met, or the cap is returned. *)
Lemma count_search_cases `{Libm} tbl x r : forall c,
  0 <= c ->
  (exists n, c <= n < c + Z.of_nat r
     /\ flt (Canonical.c_count_probability tbl n x)
            (previous_probability tbl x n) = true
     /\ Canonical.count_search tbl r c (previous_probability tbl x c) x
        = F32.of_Z (n - 1))
  \/ Canonical.count_search tbl r c (previous_probability tbl x c) x
     = F32.of_Z factorials_table_length.
Proof.
  induction r as [| r IH]; intros c Hc; [right; reflexivity |].
  rewrite count_search_S.
  destruct (flt (Canonical.c_count_probability tbl c x)
                (previous_probability tbl x c)) eqn:E.
  - left. exists c. repeat split; try lia. exact E.
  - rewrite <- (previous_probability_succ tbl x c Hc).
    destruct (IH (c + 1)) as [(n & Hn & Hd & Hr) | Hr]; [lia | |].
    + left. exists n. repeat split; try lia; assumption.
    + right. exact Hr.
Qed.

Lemma first_comparison_false `{AnnexF} tbl x :
  flt (Canonical.c_count_probability tbl 0 x)
      (previous_probability tbl x 0) = false.
Proof. rewrite count_probability_zero_nan. reflexivity. Qed.

Lemma previous_probability_pos `{Libm} tbl x n :
  1 <= n ->
  previous_probability tbl x n = Canonical.c_count_probability tbl (n - 1) x.
Proof.
  intros Hn. unfold previous_probability.
  destruct (Z.eqb_spec n 0); [lia | reflexivity].
Qed.

(** Chains of [fle] along an index range. *)
Lemma fle_chain_up (p : Z -> float) (b : Z) (d : nat) : forall k,
  k = b - Z.of_nat d ->
  fle (p b) (p b) = true ->
  (forall j, k <= j < b -> fle (p j) (p (j + 1)) = true) ->
  fle (p k) (p b) = true.
Proof.
  induction d as [| d IH]; intros k Hk Hb Hup.
  - replace k with b by lia. exact Hb.
  - apply fle_trans with (p (k + 1)).
    + apply Hup. lia.
    + apply IH; [lia | exact Hb |]. intros j Hj. apply Hup. lia.
Qed.

Lemma fle_chain_down (p : Z -> float) (a : Z) (d : nat) : forall k,
  k = a + Z.of_nat d ->
  fle (p a) (p a) = true ->
  (forall j, a <= j < k -> fle (p (j + 1)) (p j) = true) ->
  fle (p k) (p a) = true.
Proof.
  induction d as [| d IH]; intros k Hk Ha Hdown.
  - replace k with a by lia. exact Ha.
  - apply fle_trans with (p (k - 1)).
    + replace k with (k - 1 + 1) at 1 by lia. apply Hdown. lia.
    + apply IH; [lia | exact Ha |]. intros j Hj. apply Hdown. lia.
Qed.

(** C7: when [round(x + 0.25) == 0] (public module) or [round(x) == 0]
    (earlier iteration) the count search returns 0 at once and evaluates no
    probability; in particular it maps 0.0 to 0. *)
Theorem C7_zero_fast_path `{Libm} (tbl : list Z) (x : float) :
  (feq (round (double_of_float x + F64.dec 25 100)%f64) (F64.of_Z 0) = true ->
   Canonical.c_find_most_likely_counts tbl x = S754_zero false
   /\ Canonical.c_find_most_likely_counts_evals tbl x = [])
  /\ (feq (round (double_of_float x)) (F64.of_Z 0) = true ->
      Legacy.find_most_likely_counts tbl x = S754_zero false
      /\ Legacy.find_most_likely_counts_evals tbl x = [])
  /\ Canonical.c_find_most_likely_counts tbl (S754_zero false) = S754_zero false
  /\ Legacy.find_most_likely_counts tbl (S754_zero false) = S754_zero false.
Proof.
  split; [| split; [| split]].
  - intros Hx.
    unfold Canonical.c_find_most_likely_counts,
      Canonical.c_find_most_likely_counts_evals, Canonical.zero_fast_path.
    rewrite Hx. split; reflexivity.
  - intros Hx.
    unfold Legacy.find_most_likely_counts,
      Legacy.find_most_likely_counts_evals, Legacy.zero_fast_path.
    rewrite Hx. split; reflexivity.
  - reflexivity.
  - reflexivity.
Qed.

Lemma C7_zero_fast_path_witness :
  (Canonical.c_find_most_likely_counts table20
     (float_of_double (F64.dec 1 10)) = S754_zero false
   /\ Canonical.c_find_most_likely_counts_evals table20
        (float_of_double (F64.dec 1 10)) = [])
  /\ (Legacy.find_most_likely_counts table20
        (float_of_double (F64.dec 4 10)) = S754_zero false
      /\ Legacy.find_most_likely_counts_evals table20
           (float_of_double (F64.dec 4 10)) = []).
Proof.
  split.
  - apply (C7_zero_fast_path (H := ref_libm) table20
             (float_of_double (F64.dec 1 10))).
    vm_compute. reflexivity.
  - apply (C7_zero_fast_path (H := ref_libm) table20
             (float_of_double (F64.dec 4 10))).
    vm_compute. reflexivity.
Defined.

(** C2 (as the code has it): past the zero fast path the general formula is
    evaluated at [n = 0] first; there is no special case, the division by
    the zero variance is an IEEE division, and the value is NaN, not 0. *)
Theorem C2_formula_evaluated_at_zero `{AnnexF} (tbl : list Z) (x : float) :
  Canonical.zero_fast_path x = false ->
  (exists rest, Canonical.c_find_most_likely_counts_evals tbl x = 0 :: rest)
  /\ Canonical.c_count_probability tbl 0 x = S754_nan.
Proof.
  intros Hx. split.
  - unfold Canonical.c_find_most_likely_counts_evals. rewrite Hx.
    change (Z.to_nat factorials_table_length) with 20%nat.
    cbn [Canonical.count_search_evals]. eexists. reflexivity.
  - apply count_probability_zero_nan.
Qed.

Lemma C2_formula_evaluated_at_zero_witness :
  (exists rest,
     Canonical.c_find_most_likely_counts_evals (L := ref_libm) table20
       (F32.of_Z 3) = 0 :: rest)
  /\ Canonical.c_count_probability (L := ref_libm) table20 0 (F32.of_Z 3)
     = S754_nan.
Proof.
  apply (C2_formula_evaluated_at_zero (L := ref_libm) table20 (F32.of_Z 3)).
  vm_compute. reflexivity.
Defined.

(** C2, the claim refuted: for [x = 1] the search runs and calls the general
    formula with [counts = 0], then 1 and 2. *)
Lemma C2_counterexample :
  Canonical.zero_fast_path (F32.of_Z 1) = false
  /\ Canonical.c_find_most_likely_counts_evals (L := ref_libm) table20
       (F32.of_Z 1) = [0; 1; 2]
  /\ Canonical.c_count_probability (L := ref_libm) table20 0 (F32.of_Z 1)
     = S754_nan.
Proof. vm_compute. repeat split. Qed.

(** C9: whatever the input, the count search returns one of the integers
    0..20; the first-decrease branch cannot return -1 because the first
    probability compared is NaN. *)
Theorem C9_result_range `{AnnexF} (tbl : list Z) (x : float) :
  exists k, 0 <= k <= factorials_table_length
    /\ Canonical.c_find_most_likely_counts tbl x = F32.of_Z k.
Proof.
  unfold Canonical.c_find_most_likely_counts.
  destruct (Canonical.zero_fast_path x).
  - exists 0. split; [unfold factorials_table_length; lia | reflexivity].
  - change (S754_zero false) with (previous_probability tbl x 0).
    destruct (count_search_cases tbl x (Z.to_nat factorials_table_length) 0)
      as [(n & Hn & Hd & Hr) | Hr]; [lia | |].
    + destruct (Z.eq_dec n 0) as [-> | Hne].
      * rewrite first_comparison_false in Hd. discriminate.
      * exists (n - 1). split; [| exact Hr].
        unfold factorials_table_length in *. lia.
    + exists factorials_table_length. split; [| exact Hr].
      unfold factorials_table_length. lia.
Qed.

Lemma C9_result_range_witness :
  exists k, 0 <= k <= factorials_table_length
    /\ Canonical.c_find_most_likely_counts (L := ref_libm) table20
         (F32.of_Z (-1)) = F32.of_Z k.
Proof.
  exact (C9_result_range (L := ref_libm) (H := ref_libm_AnnexF) table20
           (F32.of_Z (-1))).
Defined.

(** C6 (the part that holds): when no candidate's probability is smaller
    than the one before it, the count search returns the cap,
    [factorials_table_length] = 20. *)
Theorem C6_saturating_cap `{AnnexF} (tbl : list Z) (x : float) :
  Canonical.zero_fast_path x = false ->
  (forall n, 1 <= n < factorials_table_length ->
     flt (Canonical.c_count_probability tbl n x)
         (Canonical.c_count_probability tbl (n - 1) x) = false) ->
  Canonical.c_find_most_likely_counts tbl x = F32.of_Z 20.
Proof.
  intros Hx Hno. unfold Canonical.c_find_most_likely_counts. rewrite Hx.
  change (S754_zero false) with (previous_probability tbl x 0).
  apply count_search_cap; [lia |].
  intros j Hj. destruct (Z.eq_dec j 0) as [-> | Hne].
  - apply first_comparison_false.
  - rewrite previous_probability_pos by lia. apply Hno.
    unfold factorials_table_length in *. lia.
Qed.

Ltac by_candidates j :=
  repeat match goal with
  | H : ?a <= j < ?b |- _ =>
      first [ (assert (a = b) by lia; lia)
            | (destruct (Z.eq_dec j a) as [-> | ?];
               [ vm_compute; reflexivity | ];
               assert (a + 1 <= j < b) by lia; clear H) ]
  | H : ?a <= j <= ?b |- _ => assert (a <= j < b + 1) by lia; clear H
  end.
Lemma C6_saturating_cap_witness :
  Canonical.c_find_most_likely_counts (L := ref_libm) table20 (F32.of_Z 40)
  = F32.of_Z 20.
Proof.
  apply (C6_saturating_cap (L := ref_libm) table20 (F32.of_Z 40)).
  - vm_compute. reflexivity.
  - unfold factorials_table_length. intros n Hn. by_candidates n.
Defined.

(** C6, the claim refuted: [x = 25] does not reach the cap; the probability
    falls from candidate 14 to 15 and 14 is returned. *)
Lemma C6_counterexample :
  Canonical.zero_fast_path (F32.of_Z 25) = false
  /\ flt (Canonical.c_count_probability (L := ref_libm) table20 15 (F32.of_Z 25))
         (Canonical.c_count_probability (L := ref_libm) table20 14 (F32.of_Z 25))
     = true
  /\ Canonical.c_find_most_likely_counts (L := ref_libm) table20 (F32.of_Z 25)
     = F32.of_Z 14.
Proof. vm_compute. repeat split. Qed.

(** The argmax argument, for any sequence of probabilities. *)
Lemma first_decrease_maximises (p : Z -> float) (n : Z) :
  2 <= n <= 19 ->
  flt (p n) (p (n - 1)) = true ->
  (forall j, 2 <= j < n -> flt (p j) (p (j - 1)) = false) ->
  unimodal p 1 19 ->
  forall k, 1 <= k <= 19 -> fle (p k) (p (n - 1)) = true.
Proof.
  intros Hn Hdec Hmin (m & Hm & Hup & Hdown).
  assert (Hrefl : fle (p (n - 1)) (p (n - 1)) = true)
    by exact (flt_fle_refl_r _ _ Hdec).
  assert (Hmn : m <= n - 1).
  { destruct (Z_le_gt_dec m (n - 1)) as [? | Hgt]; [assumption |].
    pose proof (Hup (n - 1) ltac:(lia)) as Hle.
    replace (n - 1 + 1) with n in Hle by lia.
    rewrite (flt_not_fle _ _ Hdec) in Hle. discriminate. }
  intros k Hk. destruct (Z_le_gt_dec k (n - 1)) as [Hle | Hgt].
  - apply (fle_chain_up p (n - 1) (Z.to_nat (n - 1 - k)) k);
      [lia | exact Hrefl |].
    intros j Hj. destruct (Z_lt_le_dec j m) as [Hjm | Hjm].
    + apply Hup. lia.
    + apply fle_not_flt_sym.
      * apply Hdown. lia.
      * pose proof (Hmin (j + 1) ltac:(lia)) as Hf.
        replace (j + 1 - 1) with j in Hf by lia. exact Hf.
  - apply (fle_chain_down p (n - 1) (Z.to_nat (k - (n - 1))) k);
      [lia | exact Hrefl |].
    intros j Hj. apply Hdown. lia.
Qed.

(** C3 (as the code has it): past the zero fast path, when [n] in 1..19 is
    the first candidate whose probability is smaller than the one before,
    the search returns [n - 1]; if moreover the probabilities of the
    candidates 1..19 are unimodal, that value maximises them, and no
    candidate 0..19 has a greater probability (the one of 0 is NaN). *)
Theorem C3_first_decrease_argmax `{AnnexF} (tbl : list Z) (x : float) (n : Z) :
  Canonical.zero_fast_path x = false ->
  first_decrease (fun k => Canonical.c_count_probability tbl k x) n ->
  Canonical.c_find_most_likely_counts tbl x = F32.of_Z (n - 1)
  /\ (unimodal (fun k => Canonical.c_count_probability tbl k x) 1 19 ->
      (forall k, 1 <= k <= 19 ->
         fle (Canonical.c_count_probability tbl k x)
             (Canonical.c_count_probability tbl (n - 1) x) = true)
      /\ (forall k, 0 <= k <= 19 ->
            flt (Canonical.c_count_probability tbl (n - 1) x)
                (Canonical.c_count_probability tbl k x) = false)).
Proof.
  intros Hx (Hn & Hdec & Hmin). unfold factorials_table_length in Hn.
  assert (Hn2 : 2 <= n).
  { destruct (Z.eq_dec n 1) as [-> | ?]; [| lia].
    rewrite (count_probability_zero_nan tbl x), flt_nan_r in Hdec.
    discriminate. }
  split.
  - unfold Canonical.c_find_most_likely_counts. rewrite Hx.
    change (S754_zero false) with (previous_probability tbl x 0).
    apply count_search_decrease; try lia.
    + unfold factorials_table_length. lia.
    + rewrite previous_probability_pos by lia. exact Hdec.
    + intros j Hj. destruct (Z.eq_dec j 0) as [-> | Hne].
      * apply first_comparison_false.
      * rewrite previous_probability_pos by lia. apply Hmin. lia.
  - intros Huni.
    pose proof (first_decrease_maximises
                  (fun k => Canonical.c_count_probability tbl k x) n
                  ltac:(lia) Hdec ltac:(intros; apply Hmin; lia) Huni)
      as Hall.
    split; [exact Hall |].
    intros k Hk. destruct (Z.eq_dec k 0) as [-> | Hne].
    + rewrite (count_probability_zero_nan tbl x). apply flt_nan_r.
    + apply fle_not_flt. apply (Hall k). lia.
Qed.

Lemma C3_first_decrease_argmax_witness :
  Canonical.c_find_most_likely_counts (L := ref_libm) table20 (F32.of_Z 25)
  = F32.of_Z (15 - 1)
  /\ (forall k, 1 <= k <= 19 ->
        fle (Canonical.c_count_probability (L := ref_libm) table20 k (F32.of_Z 25))
            (Canonical.c_count_probability (L := ref_libm) table20 (15 - 1)
               (F32.of_Z 25)) = true)
  /\ (forall k, 0 <= k <= 19 ->
        flt (Canonical.c_count_probability (L := ref_libm) table20 (15 - 1)
               (F32.of_Z 25))
            (Canonical.c_count_probability (L := ref_libm) table20 k (F32.of_Z 25))
        = false).
Proof.
  destruct (C3_first_decrease_argmax (L := ref_libm) table20 (F32.of_Z 25) 15)
    as [Hr Hu].
  - vm_compute. reflexivity.
  - split; [unfold factorials_table_length; lia |].
    split; [vm_compute; reflexivity |].
    intros j Hj. by_candidates j.
  - split; [exact Hr |]. apply Hu.
    exists 14. split; [lia |]. split; intros j Hj; by_candidates j.
Defined.

(** C3, the claim refuted: for [x = 40] the probabilities of the candidates
    1..19 are unimodal (they only rise) and candidate 19 is their strict
    maximum, yet the search returns 20, which is no candidate of the table. *)
Lemma C3_counterexample :
  Canonical.zero_fast_path (F32.of_Z 40) = false
  /\ unimodal
       (fun k => Canonical.c_count_probability (L := ref_libm) table20 k
                   (F32.of_Z 40)) 1 19
  /\ (forall k, 0 <= k < 19 ->
        fle (Canonical.c_count_probability (L := ref_libm) table20 19
               (F32.of_Z 40))
            (Canonical.c_count_probability (L := ref_libm) table20 k
               (F32.of_Z 40)) = false)
  /\ Canonical.c_find_most_likely_counts (L := ref_libm) table20 (F32.of_Z 40)
     = F32.of_Z 20.
Proof.
  split; [vm_compute; reflexivity |].
  split.
  { exists 19. split; [lia |]. split; intros j Hj; by_candidates j. }
  split; [intros j Hj; by_candidates j |].
  vm_compute. reflexivity.
Qed.

(** ** The monad and the frame of the factorial table *)

Lemma bind_ok {A B} (m : M A) (k : A -> M B) g r :
  bind m k g = Ok r -> exists a g1, m g = Ok (a, g1) /\ k a g1 = Ok r.
Proof.
  unfold bind. destruct (m g) as [[a g1] | f]; [| discriminate].
  intros Hk. exists a, g1. split; [reflexivity | exact Hk].
Qed.

Lemma bind_eq {A B} (m : M A) (k : A -> M B) g a g1 :
  m g = Ok (a, g1) -> bind m k g = k a g1.
Proof. unfold bind. intros ->. reflexivity. Qed.

Lemma lift_ok {A} (o : option A) g a g' :
  lift o g = Ok (a, g') -> o = Some a /\ g' = g.
Proof. destruct o; simpl; unfold ret, fail; intros Hr; by simplify_eq. Qed.

Lemma preserves_ret {A} (a : A) : preserves_table (ret a).
Proof. intros g b g' Hr. unfold ret in Hr. by simplify_eq. Qed.

Lemma preserves_fail {A} f : preserves_table (@fail A f).
Proof. intros g b g' Hr. discriminate. Qed.

Lemma preserves_lift {A} (o : option A) : preserves_table (lift o).
Proof. intros g b g' Hr. apply lift_ok in Hr as [_ ->]. reflexivity. Qed.

Lemma preserves_get_table : preserves_table get_table.
Proof. intros g b g' Hr. unfold get_table in Hr. by simplify_eq. Qed.

Lemma preserves_rand `{Rand} : preserves_table rand.
Proof. intros g b g' Hr. unfold rand in Hr. by simplify_eq. Qed.

Lemma preserves_bind {A B} (m : M A) (k : A -> M B) :
  preserves_table m -> (forall a, preserves_table (k a)) ->
  preserves_table (bind m k).
Proof.
  intros Hm Hk g b g' Hr.
  apply bind_ok in Hr as (a & g1 & H1 & H2).
  rewrite (Hk a g1 b g' H2). exact (Hm g a g1 H1).
Qed.

Ltac frame :=
  repeat first
    [ apply preserves_ret
    | apply preserves_fail
    | apply preserves_lift
    | apply preserves_get_table
    | apply preserves_rand
    | apply preserves_bind; [| intros ?]
    | match goal with
      | |- preserves_table (if ?b then _ else _) => destruct b
      | |- preserves_table (match ?f with O => _ | S _ => _ end) => destruct f
      end ].

Lemma canonical_scan_step_frame `{Libm} `{Rand} c k s :
  preserves_table (Canonical.scan_step c k s).
Proof. unfold Canonical.scan_step. frame. Qed.

Lemma canonical_scan_row_frame `{Libm} `{Rand} fuel c k : forall s,
  preserves_table (Canonical.scan_row fuel c k s).
Proof.
  induction fuel as [| fuel IH]; intros s; cbn [Canonical.scan_row].
  - frame.
  - destruct (i s <? width c); [| frame].
    apply preserves_bind; [apply canonical_scan_step_frame | intros s'; apply IH].
Qed.

Lemma canonical_scan_rows_frame `{Libm} `{Rand} fuel c n : forall k res,
  preserves_table (Canonical.scan_rows fuel c n k res).
Proof.
  induction n as [| n IH]; intros k res; cbn [Canonical.scan_rows].
  - frame.
  - apply preserves_bind; [apply canonical_scan_row_frame | intros s; apply IH].
Qed.

Lemma counts_cols_frame `{Libm} image b c k n : forall i res,
  preserves_table (Canonical.counts_cols image b c k n i res).
Proof.
  induction n as [| n IH]; intros i res; cbn [Canonical.counts_cols].
  - frame.
  - frame. apply IH.
Qed.

Lemma counts_rows_frame `{Libm} image w b c n : forall k res,
  preserves_table (Canonical.counts_rows image w b c n k res).
Proof.
  induction n as [| n IH]; intros k res; cbn [Canonical.counts_rows].
  - frame.
  - apply preserves_bind; [apply counts_cols_frame | intros r; apply IH].
Qed.

Lemma legacy_scan_step_frame `{Libm} `{Rand} c k s :
  preserves_table (Legacy.scan_step c k s).
Proof. unfold Legacy.scan_step. frame. Qed.

Lemma legacy_scan_row_frame `{Libm} `{Rand} fuel c k : forall s,
  preserves_table (Legacy.scan_row fuel c k s).
Proof.
  induction fuel as [| fuel IH]; intros s; cbn [Legacy.scan_row].
  - frame.
  - destruct (i s <? width c); [| frame].
    apply preserves_bind; [apply legacy_scan_step_frame | intros s'; apply IH].
Qed.

Lemma legacy_scan_rows_frame `{Libm} `{Rand} fuel c n : forall k res,
  preserves_table (Legacy.scan_rows fuel c n k res).
Proof.
  induction n as [| n IH]; intros k res; cbn [Legacy.scan_rows].
  - frame.
  - apply preserves_bind; [apply legacy_scan_row_frame | intros s; apply IH].
Qed.

(** [create_factorials_table(20)] fills the 20 slots whatever they held. *)
Lemma create_factorials_table_run (g : globals) :
  length (factorials_table g) = Z.to_nat factorials_table_length ->
  create_factorials_table factorials_table_length g
  = Ok (tt, Globals table20 (rand_calls g)).
Proof.
  destruct g as [t rc]. cbn [factorials_table rand_calls].
  change (Z.to_nat factorials_table_length) with 20%nat. intros Hlen.
  do 20 (destruct t as [| ? t]; [simpl in Hlen; lia |]).
  destruct t; [| simpl in Hlen; lia].
  vm_compute. reflexivity.
Qed.

(** C5: after [create_factorials_table(20)] the table holds 1 at index 0 and
    [i * table[i-1]] at every index [i] of 1..19, that is [i!]; and when an
    operation of either module ends, the table is still that one: nothing
    after the construction writes to it. *)
Theorem C5_factorial_table `{Libm} `{Rand} (g : globals) :
  length (factorials_table g) = Z.to_nat factorials_table_length ->
  exists t,
    create_factorials_table factorials_table_length g
    = Ok (tt, Globals t (rand_calls g))
    /\ t !! 0%nat = Some 1
    /\ (forall n, (1 <= n <= 19)%nat ->
          exists a b, t !! n = Some a /\ t !! (n - 1)%nat = Some b
                      /\ a = Z.of_nat n * b)
    /\ (forall n, (n <= 19)%nat -> t !! n = Some (factorial n))
    /\ (forall fuel image result h w b c p oi res g',
          Canonical.c_electron_counting fuel image result h w b c p oi g
          = Ok (res, g') -> factorials_table g' = t)
    /\ (forall image result h w b c res g',
          Canonical.c_find_most_likely_counts_image image result h w b c g
          = Ok (res, g') -> factorials_table g' = t)
    /\ (forall fuel image result h w b c p res g',
          Legacy.c_electron_counting fuel image result h w b c p g
          = Ok (res, g') -> factorials_table g' = t).
Proof.
  intros Hlen. pose proof (create_factorials_table_run g Hlen) as Hrun.
  exists table20. split; [exact Hrun |]. split; [reflexivity |].
  split; [| split; [| split; [| split]]].
  - intros n Hn. exists (factorial n), (factorial (n - 1)).
    destruct n as [| n]; [lia |].
    do 19 (destruct n as [| n]; [vm_compute; repeat split |]). lia.
  - intros n Hn.
    do 20 (destruct n as [| n]; [reflexivity |]). lia.
  - intros fuel image result h w b c p oi res g' Hop.
    unfold Canonical.c_electron_counting in Hop.
    apply bind_ok in Hop as (u & g1 & H1 & H2).
    rewrite Hrun in H1.
    assert (g1 = Globals table20 (rand_calls g)) as -> by congruence.
    apply canonical_scan_rows_frame in H2. exact H2.
  - intros image result h w b c res g' Hop.
    unfold Canonical.c_find_most_likely_counts_image in Hop.
    apply bind_ok in Hop as (u & g1 & H1 & H2).
    rewrite Hrun in H1.
    assert (g1 = Globals table20 (rand_calls g)) as -> by congruence.
    apply counts_rows_frame in H2. exact H2.
  - intros fuel image result h w b c p res g' Hop.
    unfold Legacy.c_electron_counting in Hop.
    apply bind_ok in Hop as (u & g1 & H1 & H2).
    rewrite Hrun in H1.
    assert (g1 = Globals table20 (rand_calls g)) as -> by congruence.
    apply legacy_scan_rows_frame in H2. exact H2.
Qed.

Lemma C5_factorial_table_witness :
  exists t,
    create_factorials_table factorials_table_length initial_globals
    = Ok (tt, Globals t 0)
    /\ t !! 0%nat = Some 1
    /\ (forall n, (1 <= n <= 19)%nat ->
          exists a b, t !! n = Some a /\ t !! (n - 1)%nat = Some b
                      /\ a = Z.of_nat n * b)
    /\ (forall n, (n <= 19)%nat -> t !! n = Some (factorial n))
    /\ (forall fuel image result h w b c p oi res g',
          Canonical.c_electron_counting (L := ref_libm)
            (R := constant_rand 0) fuel image result h w b c p oi
            initial_globals
          = Ok (res, g') -> factorials_table g' = t)
    /\ (forall image result h w b c res g',
          Canonical.c_find_most_likely_counts_image (L := ref_libm)
            image result h w b c initial_globals
          = Ok (res, g') -> factorials_table g' = t)
    /\ (forall fuel image result h w b c p res g',
          Legacy.c_electron_counting (L := ref_libm) (R := constant_rand 0)
            fuel image result h w b c p initial_globals
          = Ok (res, g') -> factorials_table g' = t).
Proof.
  apply (C5_factorial_table (H := ref_libm) (H0 := constant_rand 0)
           initial_globals).
  reflexivity.
Defined.

(** ** Memoryview accesses inside the array *)

Lemma mv_index_inside dim j :
  0 <= j < dim -> mv_index dim j = Some (Z.to_nat j).
Proof.
  intros Hj. unfold mv_index.
  destruct (Z.ltb_spec j 0); [lia |].
  destruct (Z.leb_spec 0 j); [| lia].
  destruct (Z.ltb_spec j dim); [reflexivity | lia].
Qed.

Lemma rectangular_row h w (a : array2) k :
  rectangular h w a -> 0 <= k < h ->
  exists row, a !! Z.to_nat k = Some row /\ Z.of_nat (length row) = w.
Proof.
  intros [Hh Hw] Hk.
  destruct (lookup_lt_is_Some_2 a (Z.to_nat k)) as [row Hrow]; [lia |].
  exists row. split; [exact Hrow |].
  rewrite Forall_lookup in Hw. exact (Hw _ _ Hrow).
Qed.

Lemma mv_get_inside h w (a : array2) k j :
  rectangular h w a -> 0 <= k < h -> 0 <= j < w ->
  exists v, mv_get a k j = Some v.
Proof.
  intros Ha Hk Hj.
  destruct (rectangular_row h w a k Ha Hk) as (row & Hrow & Hlen).
  destruct (lookup_lt_is_Some_2 row (Z.to_nat j)) as [v Hv]; [lia |].
  exists v. unfold mv_get.
  rewrite (mv_index_inside _ k) by (destruct Ha; lia).
  rewrite Hrow, (mv_index_inside _ j) by lia. exact Hv.
Qed.

Lemma mv_set_inside h w (a : array2) k j v :
  rectangular h w a -> 0 <= k < h -> 0 <= j < w ->
  exists a', mv_set a k j v = Some a'
    /\ rectangular h w a'
    /\ mv_get a' k j = Some v
    /\ forall k' j', 0 <= k' < h -> 0 <= j' < w -> (k' <> k \/ j' <> j) ->
         mv_get a' k' j' = mv_get a k' j'.
Proof.
  intros Ha Hk Hj.
  destruct (rectangular_row h w a k Ha Hk) as (row & Hrow & Hlen).
  pose proof Ha as [Hh Hw].
  exists (<[Z.to_nat k := <[Z.to_nat j := v]> row]> a).
  assert (Hset : mv_set a k j v
                 = Some (<[Z.to_nat k := <[Z.to_nat j := v]> row]> a)).
  { unfold mv_set. rewrite (mv_index_inside _ k) by lia.
    rewrite Hrow, (mv_index_inside _ j) by lia. reflexivity. }
  split; [exact Hset |]. split; [| split].
  - split; [rewrite length_insert; exact Hh |].
    apply Forall_insert; [exact Hw |]. rewrite length_insert. exact Hlen.
  - unfold mv_get. rewrite length_insert.
    rewrite (mv_index_inside _ k) by lia.
    rewrite list_lookup_insert_eq by lia. cbv beta iota.
    rewrite length_insert, (mv_index_inside _ j) by lia.
    apply list_lookup_insert_eq. lia.
  - intros k' j' Hk' Hj' Hne. unfold mv_get. rewrite length_insert.
    rewrite (mv_index_inside _ k') by lia.
    destruct (Z.eq_dec k' k) as [-> | Hkk].
    + rewrite list_lookup_insert_eq by lia. rewrite Hrow. cbv beta iota.
      rewrite length_insert, (mv_index_inside _ j') by lia.
      apply list_lookup_insert_ne. lia.
    + rewrite list_lookup_insert_ne by lia. reflexivity.
Qed.

(** ** Direct counting *)

Lemma counts_cols_spec `{Libm} h w image b c k g n : forall j res,
  rectangular h w image -> rectangular h w res ->
  0 <= k < h -> 0 <= j -> j + Z.of_nat n = w ->
  exists res',
    Canonical.counts_cols image b c k n j res g = Ok (res', g)
    /\ rectangular h w res'
    /\ (forall j', j <= j' < w ->
          exists p, mv_get image k j' = Some p
            /\ mv_get res' k j'
               = Some (Canonical.c_find_most_likely_counts
                         (factorials_table g) ((p - b) / c)%f32))
    /\ (forall k' j', 0 <= k' < h -> 0 <= j' < w -> (k' <> k \/ j' < j) ->
          mv_get res' k' j' = mv_get res k' j').
Proof.
  induction n as [| n IH]; intros j res Himg Hres Hk Hj Hn.
  - exists res. cbn [Canonical.counts_cols]. split; [reflexivity |].
    split; [exact Hres |]. split; [intros; lia | reflexivity].
  - cbn [Canonical.counts_cols].
    destruct (mv_get_inside h w image k j Himg Hk) as [p Hp]; [lia |].
    destruct (mv_set_inside h w res k j
                (Canonical.c_find_most_likely_counts (factorials_table g)
                   ((p - b) / c)%f32) Hres Hk)
      as (res1 & Hset & Hres1 & Hget1 & Hother1); [lia |].
    destruct (IH (j + 1) res1 Himg Hres1 Hk) as (res' & Hrun & Hr' & Hrow & Hrest);
      [lia | lia |].
    exists res'. split; [| split; [exact Hr' | split]].
    + unfold bind at 1. rewrite Hp. cbn [lift]. unfold ret at 1.
      unfold bind at 1. unfold get_table at 1.
      unfold bind at 1. rewrite Hset. cbn [lift]. unfold ret at 1.
      exact Hrun.
    + intros j' Hj'. destruct (Z.eq_dec j' j) as [-> | Hne].
      * exists p. split; [exact Hp |].
        rewrite (Hrest k j) by lia. exact Hget1.
      * apply Hrow. lia.
    + intros k' j' Hk' Hj' Hcase.
      rewrite (Hrest k' j') by lia. apply Hother1; lia.
Qed.

Lemma counts_rows_spec `{Libm} h w image b c g n : forall k res,
  rectangular h w image -> rectangular h w res ->
  0 <= k -> k + Z.of_nat n = h -> 0 <= w ->
  exists res',
    Canonical.counts_rows image w b c n k res g = Ok (res', g)
    /\ rectangular h w res'
    /\ (forall k' j', k <= k' < h -> 0 <= j' < w ->
          exists p, mv_get image k' j' = Some p
            /\ mv_get res' k' j'
               = Some (Canonical.c_find_most_likely_counts
                         (factorials_table g) ((p - b) / c)%f32))
    /\ (forall k' j', 0 <= k' < k -> 0 <= j' < w ->
          mv_get res' k' j' = mv_get res k' j').
Proof.
  induction n as [| n IH]; intros k res Himg Hres Hk Hn Hw.
  - exists res. cbn [Canonical.counts_rows]. split; [reflexivity |].
    split; [exact Hres |]. split; [intros; lia | reflexivity].
  - cbn [Canonical.counts_rows].
    destruct (counts_cols_spec h w image b c k g (Z.to_nat w) 0 res)
      as (res1 & Hrun1 & Hres1 & Hrow1 & Hrest1); try assumption; try lia.
    destruct (IH (k + 1) res1 Himg Hres1) as (res' & Hrun & Hr' & Hrows & Hrest);
      try lia.
    exists res'. split; [| split; [exact Hr' | split]].
    + rewrite (bind_eq _ _ _ _ _ Hrun1). exact Hrun.
    + intros k' j' Hk' Hj'. destruct (Z.eq_dec k' k) as [-> | Hne].
      * rewrite (Hrest k j') by lia. apply Hrow1. lia.
      * apply Hrows; lia.
    + intros k' j' Hk' Hj'.
      rewrite (Hrest k' j') by lia. apply Hrest1; lia.
Qed.

(** C8: in the direct counting mode every pixel of the result is the count
    search applied to [(pixel - baseline) / countlevel] of the same pixel of
    the image, and to nothing else. *)
Theorem C8_direct_counting `{Libm} (image result : array2) (h w : Z)
    (baseline countlevel : float) (g : globals) :
  rectangular h w image -> rectangular h w result -> 0 <= w ->
  exists res g',
    Canonical.c_find_most_likely_counts_image image result h w baseline
      countlevel g = Ok (res, g')
    /\ rectangular h w res
    /\ forall k j, 0 <= k < h -> 0 <= j < w ->
         exists p, mv_get image k j = Some p
           /\ mv_get res k j
              = Some (Canonical.c_find_most_likely_counts
                        (factorials_table g')
                        ((p - baseline) / countlevel)%f32).
Proof.
  intros Himg Hres Hw.
  unfold Canonical.c_find_most_likely_counts_image.
  set (g1 := Globals
               (create_factorials_loop (Z.to_nat factorials_table_length) 1
                  factorials_table_length (<[0%nat := 1]> (factorials_table g)))
               (rand_calls g)).
  assert (Hcreate : create_factorials_table factorials_table_length g
                    = Ok (tt, g1)) by reflexivity.
  destruct (counts_rows_spec h w image baseline countlevel g1 (Z.to_nat h) 0
              result) as (res & Hrun & Hr & Hrows & _);
    try assumption; try lia.
  { destruct Himg as [Hh _]. lia. }
  exists res, g1. split; [| split; [exact Hr |]].
  - rewrite (bind_eq _ _ _ _ _ Hcreate). exact Hrun.
  - intros k j Hk Hj. apply Hrows; lia.
Qed.

Lemma C8_direct_counting_witness :
  exists res g',
    Canonical.c_find_most_likely_counts_image (L := ref_libm)
      [[px 1 10; px 2 10; px 31 100]] [[px 0 1; px 0 1; px 0 1]] 1 3
      (px 0 1) (px 1 10) initial_globals = Ok (res, g')
    /\ rectangular 1 3 res
    /\ forall k j, 0 <= k < 1 -> 0 <= j < 3 ->
         exists p, mv_get [[px 1 10; px 2 10; px 31 100]] k j = Some p
           /\ mv_get res k j
              = Some (Canonical.c_find_most_likely_counts (L := ref_libm)
                        (factorials_table g')
                        ((p - px 0 1) / px 1 10)%f32).
Proof.
  apply (C8_direct_counting (H := ref_libm)).
  - split; [reflexivity | repeat constructor].
  - split; [reflexivity | repeat constructor].
  - lia.
Defined.

(** ** The row scan *)

(** C1, evaluated where it fails: a pulse still above the threshold at the
    last column of a row of width 3.  The peak that started at column 1 is
    closed at column 2; with [rand()] at half of [RAND_MAX] the restart
    column is 1 + 1 + 2 = 4, and the image is read there, outside the row
    (both modules). *)
Theorem C1_restart_reads_outside_the_row :
  (let* s1 := Canonical.scan_step (L := ref_libm) (R := constant_rand 1073741823)
                (Canonical.scan_consts (L := ref_libm) row_pulse_at_end 3
                   (px 0 1) (px 1 10) (px 1 1) true)
                0 (Scan 0 (-1) (px 0 1)
                     (peak_height
                        (Canonical.scan_consts (L := ref_libm) row_pulse_at_end
                           3 (px 0 1) (px 1 10) (px 1 1) true))
                     (zeros row_pulse_at_end)) in
   Canonical.scan_step (L := ref_libm) (R := constant_rand 1073741823)
     (Canonical.scan_consts (L := ref_libm) row_pulse_at_end 3
        (px 0 1) (px 1 10) (px 1 1) true) 0 s1) table_built
  = Ok (Scan 2 1 (px 1 1)
          (peak_height
                 (Canonical.scan_consts (L := ref_libm) row_pulse_at_end 3
                    (px 0 1) (px 1 10) (px 1 1) true))
          (zeros row_pulse_at_end), table_built)
  /\ 1 + 1
     + randnum_of (H := constant_rand 1073741823) 1073741823
         (peaklength
            (Canonical.scan_consts (L := ref_libm) row_pulse_at_end 3
               (px 0 1) (px 1 10) (px 1 1) true)) = 4
  /\ mv_get row_pulse_at_end 0 4 = None
  /\ Canonical.scan_step (L := ref_libm) (R := constant_rand 1073741823)
       (Canonical.scan_consts (L := ref_libm) row_pulse_at_end 3
          (px 0 1) (px 1 10) (px 1 1) true)
       0 (Scan 2 1 (px 1 1)
            (peak_height
                   (Canonical.scan_consts (L := ref_libm) row_pulse_at_end 3
                      (px 0 1) (px 1 10) (px 1 1) true))
            (zeros row_pulse_at_end)) table_built
     = Fault OutOfBounds
  /\ Canonical.electron_counting (L := ref_libm)
       (R := constant_rand 1073741823) 8 row_pulse_at_end
       (py 0 1) (py 1 10) (py 1 1) true initial_globals
     = Fault OutOfBounds
  /\ Legacy.electron_counting (L := ref_libm)
       (R := constant_rand 1073741823) 8 row_pulse_at_end
       (py 2 1000) (py 1 100) (py 1 1) initial_globals
     = Fault OutOfBounds.
Proof. vm_compute. repeat split. Qed.

(** C4, evaluated where it fails: a pulse wider than [peaklength] = 4,
    closed by the length limit at column 4 with the sample still above the
    threshold.  When [rand()] returns [RAND_MAX] the offset is 4 itself, so
    the new peak starts at column 0 + 1 + 4 = 5, outside [1, 5); its integral
    is seeded with the sample of column 5 and the scan goes on at column 6. *)
Theorem C4_restart_offset_reaches_peaklength :
  peaklength
    (Canonical.scan_consts (L := ref_libm) row_wide_pulse 8
       (px 0 1) (px 1 10) (px 1 1) true) = 4
  /\ randnum_of (H := constant_rand 2147483647) 2147483647 4 = 4
  /\ Canonical.scan_step (L := ref_libm) (R := constant_rand 2147483647)
       (Canonical.scan_consts (L := ref_libm) row_wide_pulse 8
          (px 0 1) (px 1 10) (px 1 1) true)
       0 (Scan 4 0 (px 4 1) (px 1 1) (zeros row_wide_pulse)) table_built
     = Ok (Scan 6 5 (px 1 1)
             (peak_height
                (Canonical.scan_consts (L := ref_libm) row_wide_pulse 8
                   (px 0 1) (px 1 10) (px 1 1) true))
             [[px 4 1; px 0 1; px 0 1; px 0 1; px 0 1; px 0 1; px 0 1; px 0 1]],
           Globals table20 1)
  /\ Canonical.electron_counting (L := ref_libm)
       (R := constant_rand 2147483647) 20 row_wide_pulse
       (py 0 1) (py 1 10) (py 1 1) true initial_globals
     = Ok ([[px 4 1; px 0 1; px 0 1; px 0 1; px 0 1; px 1 1; px 0 1; px 0 1]],
           Globals table20 1).
Proof. vm_compute. repeat split. Qed.

(** * Further properties of the two modules *)

(** ** What the count search can return *)

Lemma count_search_from_zero_range `{AnnexF} (tbl : list Z) (x : float) :
  exists k, (1 <= k <= 18 \/ k = 20)
    /\ Canonical.count_search tbl (Z.to_nat factorials_table_length) 0
         (S754_zero false) x = F32.of_Z k.
Proof.
  change (S754_zero false) with (previous_probability tbl x 0).
  destruct (count_search_cases tbl x (Z.to_nat factorials_table_length) 0)
    as [(n & Hn & Hd & Hr) | Hr]; [lia | |].
  - change (Z.of_nat (Z.to_nat factorials_table_length)) with 20 in Hn.
    destruct (Z.eq_dec n 0) as [-> | Hn0].
    { rewrite first_comparison_false in Hd. discriminate. }
    destruct (Z.eq_dec n 1) as [-> | Hn1].
    { rewrite previous_probability_pos in Hd by lia.
      change (1 - 1) with 0 in Hd.
      rewrite (count_probability_zero_nan tbl x), flt_nan_r in Hd.
      discriminate. }
    exists (n - 1). split; [left; lia | exact Hr].
  - exists 20. split; [right; reflexivity | exact Hr].
Qed.

(** Past the zero fast path the count search returns one of 1..18 or the
    cap 20: never 0 (the first two comparisons involve the NaN of candidate
    0) and never 19 (a decrease at the last candidate gives 18, no decrease
    gives 20). *)
Theorem count_search_skips_0_and_19 `{AnnexF} (tbl : list Z) (x : float) :
  Canonical.zero_fast_path x = false ->
  exists k, (1 <= k <= 18 \/ k = 20)
    /\ Canonical.c_find_most_likely_counts tbl x = F32.of_Z k.
Proof.
  intros Hx. unfold Canonical.c_find_most_likely_counts. rewrite Hx.
  apply count_search_from_zero_range.
Qed.

Lemma count_search_skips_0_and_19_witness :
  exists k, (1 <= k <= 18 \/ k = 20)
    /\ Canonical.c_find_most_likely_counts (L := ref_libm) table20
         (F32.of_Z (-5)) = F32.of_Z k.
Proof.
  apply (count_search_skips_0_and_19 (L := ref_libm) table20 (F32.of_Z (-5))).
  vm_compute. reflexivity.
Defined.

(** ** The earlier iteration's search against the public one *)

Lemma legacy_count_search_eq `{Libm} tbl x r : forall c m,
  Legacy.count_search tbl r c m x = Canonical.count_search tbl r c m x.
Proof.
  induction r as [| r IH]; intros c m; [reflexivity |].
  cbn [Legacy.count_search Canonical.count_search].
  change (Legacy.count_probability tbl c x)
    with (Canonical.c_count_probability tbl c x).
  rewrite IH. reflexivity.
Qed.

(** The two modules' count searches differ only in the zero fast path:
    where neither applies they return the same count, and where exactly one
    applies that module returns 0 and the other a count of at least 1. *)
Theorem searches_differ_only_in_fast_path `{AnnexF} (tbl : list Z) (x : float) :
  (Legacy.zero_fast_path x = false -> Canonical.zero_fast_path x = false ->
   Legacy.find_most_likely_counts tbl x
   = Canonical.c_find_most_likely_counts tbl x)
  /\ (Legacy.zero_fast_path x = true -> Canonical.zero_fast_path x = false ->
      Legacy.find_most_likely_counts tbl x = F32.of_Z 0
      /\ exists k, 1 <= k <= 20
           /\ Canonical.c_find_most_likely_counts tbl x = F32.of_Z k)
  /\ (Legacy.zero_fast_path x = false -> Canonical.zero_fast_path x = true ->
      Canonical.c_find_most_likely_counts tbl x = F32.of_Z 0
      /\ exists k, 1 <= k <= 20
           /\ Legacy.find_most_likely_counts tbl x = F32.of_Z k).
Proof.
  split; [| split].
  - intros Hl Hc.
    unfold Legacy.find_most_likely_counts, Canonical.c_find_most_likely_counts.
    rewrite Hl, Hc. apply legacy_count_search_eq.
  - intros Hl Hc. split.
    + unfold Legacy.find_most_likely_counts. rewrite Hl. reflexivity.
    + unfold Canonical.c_find_most_likely_counts. rewrite Hc.
      destruct (count_search_from_zero_range tbl x) as (k & Hk & Hr).
      exists k. split; [lia | exact Hr].
  - intros Hl Hc. split.
    + unfold Canonical.c_find_most_likely_counts. rewrite Hc. reflexivity.
    + unfold Legacy.find_most_likely_counts. rewrite Hl.
      rewrite legacy_count_search_eq.
      destruct (count_search_from_zero_range tbl x) as (k & Hk & Hr).
      exists k. split; [lia | exact Hr].
Qed.

Lemma searches_differ_only_in_fast_path_witness :
  Legacy.find_most_likely_counts (L := ref_libm) table20 (F32.of_Z 3)
  = Canonical.c_find_most_likely_counts (L := ref_libm) table20 (F32.of_Z 3)
  /\ (Legacy.find_most_likely_counts (L := ref_libm) table20 (px 3 10)
      = F32.of_Z 0
      /\ exists k, 1 <= k <= 20
           /\ Canonical.c_find_most_likely_counts (L := ref_libm) table20
                (px 3 10) = F32.of_Z k)
  /\ (Canonical.c_find_most_likely_counts (L := ref_libm) table20 (px (-6) 10)
      = F32.of_Z 0
      /\ exists k, 1 <= k <= 20
           /\ Legacy.find_most_likely_counts (L := ref_libm) table20
                (px (-6) 10) = F32.of_Z k).
Proof.
  split; [| split].
  - apply (searches_differ_only_in_fast_path (L := ref_libm) table20
             (F32.of_Z 3)); vm_compute; reflexivity.
  - apply (searches_differ_only_in_fast_path (L := ref_libm) table20
             (px 3 10)); vm_compute; reflexivity.
  - apply (searches_differ_only_in_fast_path (L := ref_libm) table20
             (px (-6) 10)); vm_compute; reflexivity.
Defined.

(** ** A NaN charge *)

Lemma F64_mul_nan_r (a : double) : (a * S754_nan)%f64 = S754_nan.
Proof. destruct a; reflexivity. Qed.

#[local] Transparent Canonical.c_count_probability.

Lemma count_probability_of_nan `{AnnexF} (tbl : list Z) (n : Z) :
  pow S754_nan (F64.of_Z 2) = S754_nan ->
  Canonical.c_count_probability tbl n S754_nan = S754_nan.
Proof.
  intros Hpow. unfold Canonical.c_count_probability.
  change (S754_nan - F32.of_Z n)%f32 with S754_nan.
  change (double_of_float S754_nan) with S754_nan.
  rewrite Hpow.
  set (c2 := double_of_float (powf (F32.of_Z n) (F32.of_Z 2))).
  assert (He : (F64.of_Z (-1) * S754_nan / (F64.of_Z 2 * c2))%f64 = S754_nan)
    by reflexivity.
  rewrite He, exp_nan, F64_mul_nan_r. reflexivity.
Qed.

#[local] Opaque Canonical.c_count_probability.

(** A NaN charge (0/0, for instance a pixel equal to the baseline under a
    zero [countlevel]) is not caught by the zero fast path, makes every
    probability NaN, and is counted as the cap, 20 electrons. *)
Theorem nan_charge_counts_as_cap `{AnnexF} (tbl : list Z) :
  pow S754_nan (F64.of_Z 2) = S754_nan ->
  Canonical.zero_fast_path S754_nan = false
  /\ Canonical.c_find_most_likely_counts tbl S754_nan = F32.of_Z 20
  /\ forall p : float,
       is_nan (p - p)%f32 = false ->
       Canonical.c_find_most_likely_counts tbl
         ((p - p) / S754_zero false)%f32 = F32.of_Z 20.
Proof.
  intros Hpow.
  assert (Hnan : Canonical.c_find_most_likely_counts tbl S754_nan
                 = F32.of_Z 20).
  { unfold Canonical.c_find_most_likely_counts.
    change (Canonical.zero_fast_path S754_nan) with false. cbv beta iota.
    change (S754_zero false) with (previous_probability tbl S754_nan 0).
    apply count_search_cap; [lia |].
    intros j _. rewrite (count_probability_of_nan tbl j Hpow).
    apply flt_nan_l. }
  split; [reflexivity |]. split; [exact Hnan |].
  intros p Hp.
  assert (Hz : ((p - p) / S754_zero false)%f32 = S754_nan); [| rewrite Hz; exact Hnan].
  unfold F32.sub in *. destruct p as [[] | [] | | s m e]; try discriminate Hp;
    try reflexivity.
  unfold SFsub.
  cbv zeta. rewrite Z.min_id.
  destruct s; cbn [cond_Zopp];
    rewrite ?Z.sub_diag, ?Z.sub_opp_r, ?Z.add_opp_diag_l; reflexivity.
Qed.

Lemma nan_charge_counts_as_cap_witness :
  Canonical.zero_fast_path S754_nan = false
  /\ Canonical.c_find_most_likely_counts (L := ref_libm) table20 S754_nan
     = F32.of_Z 20
  /\ forall p : float,
       is_nan (p - p)%f32 = false ->
       Canonical.c_find_most_likely_counts (L := ref_libm) table20
         ((p - p) / S754_zero false)%f32 = F32.of_Z 20.
Proof.
  apply (nan_charge_counts_as_cap (L := ref_libm) table20).
  reflexivity.
Defined.

(** ** [create_factorials_table] for any length up to the array's *)

(** For every [length] up to 20 the table gets [i!] at the indices below
    [length] (index 0 is written even for a [length] below 1), keeps what it
    held at the others, and no product leaves the range of [long]. *)
Theorem create_factorials_table_any_length (g : globals) (len : Z) :
  length (factorials_table g) = 20%nat -> len <= 20 ->
  exists t,
    create_factorials_table len g = Ok (tt, Globals t (rand_calls g))
    /\ length t = 20%nat
    /\ (forall n, Z.of_nat n < Z.max len 1 -> t !! n = Some (factorial n))
    /\ (forall n, Z.max len 1 <= Z.of_nat n ->
          t !! n = factorials_table g !! n).
Proof.
  destruct g as [t rc]. cbn [factorials_table rand_calls]. intros Hlen Hle.
  do 20 (destruct t as [| ? t]; [simpl in Hlen; lia |]).
  destruct t; [| simpl in Hlen; lia]. clear Hlen.
  assert (Hcases : len <= 1 \/ len = 2 \/ len = 3 \/ len = 4 \/ len = 5
            \/ len = 6 \/ len = 7 \/ len = 8 \/ len = 9 \/ len = 10
            \/ len = 11 \/ len = 12 \/ len = 13 \/ len = 14 \/ len = 15
            \/ len = 16 \/ len = 17 \/ len = 18 \/ len = 19 \/ len = 20)
    by lia.
  unfold create_factorials_table, bind, get_table, put_table.
  cbn [factorials_table rand_calls].
  destruct Hcases as [Hsmall | Hcases].
  - assert (Hloop : forall tb, create_factorials_loop (Z.to_nat len) 1 len tb = tb).
    { intros tb. destruct (Z.to_nat len) as [| n]; [reflexivity |].
      cbn [create_factorials_loop].
      destruct (Z.ltb_spec 1 len); [lia | reflexivity]. }
    rewrite Hloop. eexists. split; [reflexivity |]. split; [reflexivity |].
    replace (Z.max len 1) with 1 by lia. split.
    + intros n Hn. destruct n as [| n]; [reflexivity | lia].
    + intros n Hn. destruct n as [| n]; [lia | reflexivity].
  - repeat (destruct Hcases as [-> | Hcases]); try subst len;
      (eexists; split; [vm_compute; reflexivity |]; split; [reflexivity |];
       split; intros n Hn;
       do 20 (destruct n as [| n]; [first [reflexivity | lia] |]);
       first [reflexivity | lia]).
Qed.

Lemma create_factorials_table_any_length_witness :
  exists t,
    create_factorials_table 5 initial_globals = Ok (tt, Globals t 0)
    /\ length t = 20%nat
    /\ (forall n, Z.of_nat n < Z.max 5 1 -> t !! n = Some (factorial n))
    /\ (forall n, Z.max 5 1 <= Z.of_nat n ->
          t !! n = factorials_table initial_globals !! n).
Proof.
  apply (create_factorials_table_any_length initial_globals 5).
  - reflexivity.
  - lia.
Defined.

(** Building the table is idempotent: a second
    [create_factorials_table(20)], as every operation of the modules starts
    with, leaves the table and the generator as the first one left them. *)
Theorem create_factorials_table_idempotent (g : globals) :
  length (factorials_table g) = Z.to_nat factorials_table_length ->
  (let* _ := create_factorials_table factorials_table_length in
   create_factorials_table factorials_table_length) g
  = create_factorials_table factorials_table_length g.
Proof.
  intros Hlen.
  rewrite (bind_eq _ _ _ _ _ (create_factorials_table_run g Hlen)).
  rewrite (create_factorials_table_run g Hlen).
  apply (create_factorials_table_run (Globals table20 (rand_calls g))).
  reflexivity.
Qed.

Lemma create_factorials_table_idempotent_witness :
  (let* _ := create_factorials_table factorials_table_length in
   create_factorials_table factorials_table_length) initial_globals
  = create_factorials_table factorials_table_length initial_globals.
Proof.
  apply (create_factorials_table_idempotent initial_globals). reflexivity.
Defined.

(** ** Shapes *)

Lemma rectangular_shape h w (a : array2) :
  rectangular h w a ->
  rectangular (shape0 a) (shape1 a) a
  /\ rectangular (shape0 a) (shape1 a) (zeros a)
  /\ shape0 a = h /\ (0 < h -> shape1 a = w) /\ 0 <= shape1 a.
Proof.
  intros [Hh Hw]. unfold shape0, shape1, zeros.
  destruct a as [| row a]; cbn [hd length].
  - simpl in Hh. repeat split; try constructor; try lia.
  - pose proof (Forall_inv Hw) as Hrow. cbn beta in Hrow. simpl in Hh.
    repeat split; try lia.
    + rewrite Hrow. exact Hw.
    + rewrite length_replicate. reflexivity.
    + apply Forall_forall. intros r Hr.
      apply elem_of_replicate in Hr as [-> _].
      rewrite length_replicate. reflexivity.
Qed.

Lemma rectangular_empty w (a : array2) : rectangular 0 w a -> a = [].
Proof. intros [Hh _]. destruct a; [reflexivity | simpl in Hh; lia]. Qed.

Lemma rectangular_rewidth h w w' (a : array2) :
  rectangular h w a -> (0 < h -> w' = w) -> rectangular h w' a.
Proof.
  intros Ha Hw. destruct (Z_lt_le_dec 0 h) as [Hpos | Hz].
  - rewrite (Hw Hpos). exact Ha.
  - destruct Ha as [Hh Hf]. destruct a; [| simpl in Hh; lia].
    split; [exact Hh | constructor].
Qed.

(** The Python entry point of the direct mode, on any rectangular image:
    it returns an array of the image's shape whose every pixel is the count
    search of that pixel's [(pixel - baseline) / countlevel], computed in
    [float] from the arguments rounded to [float]; it never calls
    [rand()]. *)
Theorem find_most_likely_counts_total `{Libm} (image : array2) (h w : Z)
    (baseline countlevel : double) (g : globals) :
  rectangular h w image ->
  exists res g',
    Canonical.find_most_likely_counts image baseline countlevel g
    = Ok (res, g')
    /\ rectangular h w res
    /\ rand_calls g' = rand_calls g
    /\ forall k j, 0 <= k < h -> 0 <= j < w ->
         exists p, mv_get image k j = Some p
           /\ mv_get res k j
              = Some (Canonical.c_find_most_likely_counts
                        (factorials_table g')
                        ((p - float_of_double baseline)
                         / float_of_double countlevel)%f32).
Proof.
  intros Himg.
  destruct (rectangular_shape h w image Himg) as (Hi & Hz & Hh & Hw & Hw0).
  unfold Canonical.find_most_likely_counts,
    Canonical.c_find_most_likely_counts_image.
  set (g1 := Globals
               (create_factorials_loop (Z.to_nat factorials_table_length) 1
                  factorials_table_length (<[0%nat := 1]> (factorials_table g)))
               (rand_calls g)).
  assert (Hcreate : create_factorials_table factorials_table_length g
                    = Ok (tt, g1)) by reflexivity.
  destruct (counts_rows_spec (shape0 image) (shape1 image) image
              (float_of_double baseline) (float_of_double countlevel) g1
              (Z.to_nat (shape0 image)) 0 (zeros image))
    as (res & Hrun & Hr & Hrows & _); try assumption; try lia.
  { unfold shape0. lia. }
  exists res, g1. split; [| split; [| split; [reflexivity |]]].
  - rewrite (bind_eq _ _ _ _ _ Hcreate). exact Hrun.
  - rewrite Hh in Hr. apply (rectangular_rewidth h (shape1 image)); [exact Hr |].
    intros Hpos. symmetry. exact (Hw Hpos).
  - intros k j Hk Hj. apply Hrows; [lia |]. rewrite (Hw ltac:(lia)). exact Hj.
Qed.

Lemma find_most_likely_counts_total_witness :
  exists res g',
    Canonical.find_most_likely_counts (L := ref_libm)
      [[px 1 10; px 2 10; px 31 100]] (py 0 1) (py 1 10) initial_globals
    = Ok (res, g')
    /\ rectangular 1 3 res
    /\ rand_calls g' = rand_calls initial_globals
    /\ forall k j, 0 <= k < 1 -> 0 <= j < 3 ->
         exists p, mv_get [[px 1 10; px 2 10; px 31 100]] k j = Some p
           /\ mv_get res k j
              = Some (Canonical.c_find_most_likely_counts (L := ref_libm)
                        (factorials_table g')
                        ((p - float_of_double (py 0 1))
                         / float_of_double (py 1 10))%f32).
Proof.
  apply (find_most_likely_counts_total (H := ref_libm)
           [[px 1 10; px 2 10; px 31 100]] 1 3).
  split; [reflexivity | repeat constructor].
Defined.

(** ** The result array keeps its shape *)

Lemma ensures_ret {A} (Q : A -> Prop) a : Q a -> ensures Q (ret a).
Proof. intros Ha g b g' Hr. unfold ret in Hr. by simplify_eq. Qed.

Lemma ensures_bind {A B} (P : A -> Prop) (Q : B -> Prop) (m : M A)
    (k : A -> M B) :
  ensures P m -> (forall a, P a -> ensures Q (k a)) -> ensures Q (bind m k).
Proof.
  intros Hm Hk g b g' Hr.
  apply bind_ok in Hr as (a & g1 & H1 & H2).
  exact (Hk a (Hm _ _ _ H1) _ _ _ H2).
Qed.

Lemma ensures_any {A} (m : M A) : ensures (fun _ => True) m.
Proof. intros g a g' _. exact I. Qed.

Lemma ensures_lift {A} (Q : A -> Prop) (o : option A) :
  (forall a, o = Some a -> Q a) -> ensures Q (lift o).
Proof. intros Ho g a g' Hr. apply lift_ok in Hr as [Hs _]. auto. Qed.

Lemma mv_set_shape h w (a a' : array2) k j v :
  mv_set a k j v = Some a' -> rectangular h w a -> rectangular h w a'.
Proof.
  unfold mv_set. intros Hset [Hh Hw].
  destruct (mv_index _ k) as [k' |]; [| discriminate].
  destruct (a !! k') as [row |] eqn:Hrow; [| discriminate].
  destruct (mv_index _ j) as [j' |]; [| discriminate].
  injection Hset as <-. split.
  - rewrite length_insert. exact Hh.
  - apply Forall_insert; [exact Hw |]. rewrite length_insert.
    rewrite Forall_lookup in Hw. exact (Hw _ _ Hrow).
Qed.

Ltac skip_value :=
  eapply ensures_bind; [apply ensures_any | intros ? _].

Lemma canonical_scan_step_shape `{Libm} `{Rand} h w c k s :
  rectangular h w (result s) ->
  ensures (fun s' => rectangular h w (result s')) (Canonical.scan_step c k s).
Proof.
  intros Hs. unfold Canonical.scan_step.
  apply ensures_bind with (P := fun s' => rectangular h w (result s')).
  - destruct (negb (index s =? -1)); [| apply ensures_ret; exact Hs].
    skip_value.
    destruct (_ || _ || _); [| apply ensures_ret; exact Hs].
    skip_value.
    apply ensures_bind with (P := rectangular h w).
    { apply ensures_lift. intros arr Harr.
      exact (mv_set_shape _ _ _ _ _ _ _ Harr Hs). }
    intros res Hres. skip_value.
    destruct (fgt _ _); [| apply ensures_ret; exact Hres].
    skip_value. skip_value. apply ensures_ret. exact Hres.
  - intros s1 Hs1.
    apply ensures_bind with (P := fun s' => rectangular h w (result s')).
    + destruct (index s1 =? -1); [| apply ensures_ret; exact Hs1].
      skip_value. destruct (fgt _ _); apply ensures_ret; exact Hs1.
    + intros s2 Hs2. apply ensures_ret. exact Hs2.
Qed.

Lemma legacy_scan_step_shape `{Libm} `{Rand} h w c k s :
  rectangular h w (result s) ->
  ensures (fun s' => rectangular h w (result s')) (Legacy.scan_step c k s).
Proof.
  intros Hs. unfold Legacy.scan_step.
  apply ensures_bind with (P := fun s' => rectangular h w (result s')).
  - destruct (negb (index s =? -1)); [| apply ensures_ret; exact Hs].
    skip_value.
    destruct (_ || _ || _); [| apply ensures_ret; exact Hs].
    skip_value.
    apply ensures_bind with (P := rectangular h w).
    { apply ensures_lift. intros arr Harr.
      exact (mv_set_shape _ _ _ _ _ _ _ Harr Hs). }
    intros res Hres. skip_value.
    destruct (fge _ _); [| apply ensures_ret; exact Hres].
    skip_value. skip_value. apply ensures_ret. exact Hres.
  - intros s1 Hs1.
    apply ensures_bind with (P := fun s' => rectangular h w (result s')).
    + destruct (index s1 =? -1); [| apply ensures_ret; exact Hs1].
      skip_value. destruct (fge _ _); apply ensures_ret; exact Hs1.
    + intros s2 Hs2. apply ensures_ret. exact Hs2.
Qed.

Lemma canonical_scan_row_shape `{Libm} `{Rand} h w fuel c k : forall s,
  rectangular h w (result s) ->
  ensures (fun s' => rectangular h w (result s'))
    (Canonical.scan_row fuel c k s).
Proof.
  induction fuel as [| fuel IH]; intros s Hs; cbn [Canonical.scan_row];
    (destruct (i s <? width c); [| apply ensures_ret; exact Hs]).
  - intros g a g' Hr. discriminate.
  - eapply ensures_bind; [apply canonical_scan_step_shape; exact Hs |].
    intros s' Hs'. apply IH. exact Hs'.
Qed.

Lemma legacy_scan_row_shape `{Libm} `{Rand} h w fuel c k : forall s,
  rectangular h w (result s) ->
  ensures (fun s' => rectangular h w (result s'))
    (Legacy.scan_row fuel c k s).
Proof.
  induction fuel as [| fuel IH]; intros s Hs; cbn [Legacy.scan_row];
    (destruct (i s <? width c); [| apply ensures_ret; exact Hs]).
  - intros g a g' Hr. discriminate.
  - eapply ensures_bind; [apply legacy_scan_step_shape; exact Hs |].
    intros s' Hs'. apply IH. exact Hs'.
Qed.

Lemma canonical_scan_rows_shape `{Libm} `{Rand} h w fuel c n : forall k res,
  rectangular h w res ->
  ensures (rectangular h w) (Canonical.scan_rows fuel c n k res).
Proof.
  induction n as [| n IH]; intros k res Hres; cbn [Canonical.scan_rows].
  - apply ensures_ret. exact Hres.
  - eapply ensures_bind.
    + apply (canonical_scan_row_shape h w). exact Hres.
    + intros s Hs. apply IH. exact Hs.
Qed.

Lemma legacy_scan_rows_shape `{Libm} `{Rand} h w fuel c n : forall k res,
  rectangular h w res ->
  ensures (rectangular h w) (Legacy.scan_rows fuel c n k res).
Proof.
  induction n as [| n IH]; intros k res Hres; cbn [Legacy.scan_rows].
  - apply ensures_ret. exact Hres.
  - eapply ensures_bind.
    + apply (legacy_scan_row_shape h w). exact Hres.
    + intros s Hs. apply IH. exact Hs.
Qed.

(** Whenever [electron_counting] returns, in either module and whatever the
    configuration and the random numbers were, the array it returns has the
    shape of the image. *)
Theorem electron_counting_keeps_shape `{Libm} `{Rand} (fuel : nat)
    (image : array2) (h w : Z) (baseline countlevel peakwidth : double)
    (only_integrate : bool) (g g' : globals) (res : array2) :
  rectangular h w image ->
  (Canonical.electron_counting fuel image baseline countlevel peakwidth
     only_integrate g = Ok (res, g') -> rectangular h w res)
  /\ (Legacy.electron_counting fuel image baseline countlevel peakwidth g
      = Ok (res, g') -> rectangular h w res).
Proof.
  intros Himg.
  destruct (rectangular_shape h w image Himg) as (_ & Hz & Hh & Hw & _).
  assert (Hzeros : rectangular h w (zeros image)).
  { rewrite Hh in Hz. apply (rectangular_rewidth h (shape1 image)); [exact Hz |].
    intros Hpos. symmetry. exact (Hw Hpos). }
  split; intros Hrun.
  - unfold Canonical.electron_counting, Canonical.c_electron_counting in Hrun.
    apply bind_ok in Hrun as (u & g1 & _ & Hrows).
    exact (canonical_scan_rows_shape h w _ _ _ _ _ Hzeros _ _ _ Hrows).
  - unfold Legacy.electron_counting, Legacy.c_electron_counting in Hrun.
    apply bind_ok in Hrun as (u & g1 & _ & Hrows).
    exact (legacy_scan_rows_shape h w _ _ _ _ _ Hzeros _ _ _ Hrows).
Qed.

Lemma electron_counting_keeps_shape_witness :
  (exists res g',
     Canonical.electron_counting (L := ref_libm)
       (R := constant_rand 2147483647) 20 row_wide_pulse
       (py 0 1) (py 1 10) (py 1 1) false initial_globals = Ok (res, g')
     /\ rectangular 1 8 res)
  /\ (exists res g',
        Legacy.electron_counting (L := ref_libm)
          (R := constant_rand 2147483647) 20 row_wide_pulse
          (py 2 1000) (py 1 100) (py 1 2) initial_globals = Ok (res, g')
        /\ rectangular 1 8 res).
Proof.
  assert (Hrect : rectangular 1 8 row_wide_pulse)
    by (split; [reflexivity | repeat constructor]).
  split.
  - eexists _, _. split; [vm_compute; reflexivity |].
    refine (proj1 (electron_counting_keeps_shape (H := ref_libm)
                     (H0 := constant_rand 2147483647) 20 row_wide_pulse 1 8
                     (py 0 1) (py 1 10) (py 1 1) false initial_globals _ _
                     Hrect) _).
    vm_compute. reflexivity.
  - eexists _, _. split; [vm_compute; reflexivity |].
    refine (proj2 (electron_counting_keeps_shape (H := ref_libm)
                     (H0 := constant_rand 2147483647) 20 row_wide_pulse 1 8
                     (py 2 1000) (py 1 100) (py 1 2) false initial_globals _ _
                     Hrect) _).
    vm_compute. reflexivity.
Defined.

(** ** A quiet image *)

Lemma canonical_quiet_step `{Libm} `{Rand} c k s p g :
  index s = -1 ->
  mv_get (image c) k (i s) = Some p ->
  fgt (p - baseline c)%f32 (peak_max s * threshold c)%f32 = false ->
  Canonical.scan_step c k s g
  = Ok (Scan (i s + 1) (-1) (integral s) (peak_max s) (result s), g).
Proof.
  intros Hidx Hp Hq. unfold Canonical.scan_step. rewrite Hidx.
  change (negb (-1 =? -1)) with false. cbv beta iota.
  unfold bind at 1. unfold ret at 1. cbv beta iota. rewrite Hidx.
  change (-1 =? -1) with true. cbv beta iota.
  unfold bind at 1. unfold bind at 1. rewrite Hp. cbn [lift].
  unfold ret at 1. cbv beta iota. rewrite Hq.
  unfold ret. rewrite Hidx. reflexivity.
Qed.

Lemma legacy_quiet_step `{Libm} `{Rand} c k s p g :
  index s = -1 ->
  mv_get (image c) k (i s) = Some p ->
  fge (p - baseline c)%f32 (threshold c) = false ->
  Legacy.scan_step c k s g
  = Ok (Scan (i s + 1) (-1) (integral s) (peak_max s) (result s), g).
Proof.
  intros Hidx Hp Hq. unfold Legacy.scan_step. rewrite Hidx.
  change (negb (-1 =? -1)) with false. cbv beta iota.
  unfold bind at 1. unfold ret at 1. cbv beta iota. rewrite Hidx.
  change (-1 =? -1) with true. cbv beta iota.
  unfold bind at 1. unfold bind at 1. rewrite Hp. cbn [lift].
  unfold ret at 1. cbv beta iota. rewrite Hq.
  unfold ret. rewrite Hidx. reflexivity.
Qed.

Lemma canonical_quiet_row `{Libm} `{Rand} h c k g n : forall fuel s,
  rectangular h (width c) (image c) -> 0 <= k < h ->
  (forall j p, 0 <= j < width c -> mv_get (image c) k j = Some p ->
     fgt (p - baseline c)%f32 (peak_max s * threshold c)%f32 = false) ->
  index s = -1 -> 0 <= i s -> i s + Z.of_nat n = width c ->
  (n <= fuel)%nat ->
  Canonical.scan_row fuel c k s g
  = Ok (Scan (width c) (-1) (integral s) (peak_max s) (result s), g).
Proof.
  induction n as [| n IH]; intros fuel s Himg Hk Hq Hidx Hi Hn Hfuel.
  - destruct fuel; cbn [Canonical.scan_row];
      (destruct (Z.ltb_spec (i s) (width c)); [lia |]);
      unfold ret; destruct s as [si sidx sint spm sres];
      cbn [i index integral peak_max result] in *; subst sidx;
      replace si with (width c) by lia; reflexivity.
  - destruct fuel as [| fuel]; [lia |]. cbn [Canonical.scan_row].
    destruct (Z.ltb_spec (i s) (width c)); [| lia].
    destruct (mv_get_inside h (width c) (image c) k (i s) Himg Hk) as [p Hp];
      [lia |].
    rewrite (bind_eq _ _ _ _ _
               (canonical_quiet_step c k s p g Hidx Hp (Hq (i s) p ltac:(lia) Hp))).
    rewrite (IH fuel); cbn [i index integral peak_max result];
      try assumption; try lia; reflexivity.
Qed.

Lemma legacy_quiet_row `{Libm} `{Rand} h c k g n : forall fuel s,
  rectangular h (width c) (image c) -> 0 <= k < h ->
  (forall j p, 0 <= j < width c -> mv_get (image c) k j = Some p ->
     fge (p - baseline c)%f32 (threshold c) = false) ->
  index s = -1 -> 0 <= i s -> i s + Z.of_nat n = width c ->
  (n <= fuel)%nat ->
  Legacy.scan_row fuel c k s g
  = Ok (Scan (width c) (-1) (integral s) (peak_max s) (result s), g).
Proof.
  induction n as [| n IH]; intros fuel s Himg Hk Hq Hidx Hi Hn Hfuel.
  - destruct fuel; cbn [Legacy.scan_row];
      (destruct (Z.ltb_spec (i s) (width c)); [lia |]);
      unfold ret; destruct s as [si sidx sint spm sres];
      cbn [i index integral peak_max result] in *; subst sidx;
      replace si with (width c) by lia; reflexivity.
  - destruct fuel as [| fuel]; [lia |]. cbn [Legacy.scan_row].
    destruct (Z.ltb_spec (i s) (width c)); [| lia].
    destruct (mv_get_inside h (width c) (image c) k (i s) Himg Hk) as [p Hp];
      [lia |].
    rewrite (bind_eq _ _ _ _ _
               (legacy_quiet_step c k s p g Hidx Hp (Hq (i s) p ltac:(lia) Hp))).
    rewrite (IH fuel); cbn [i index integral peak_max result];
      try assumption; try lia; reflexivity.
Qed.

Lemma canonical_quiet_rows `{Libm} `{Rand} h c g fuel n : forall k res,
  rectangular h (width c) (image c) -> 0 <= width c ->
  (forall k j p, 0 <= k < h -> 0 <= j < width c ->
     mv_get (image c) k j = Some p ->
     fgt (p - baseline c)%f32 (peak_height c * threshold c)%f32 = false) ->
  0 <= k -> k + Z.of_nat n = h -> (Z.to_nat (width c) <= fuel)%nat ->
  Canonical.scan_rows fuel c n k res g = Ok (res, g).
Proof.
  induction n as [| n IH]; intros k res Himg Hw Hq Hk Hn Hfuel;
    cbn [Canonical.scan_rows]; [reflexivity |].
  rewrite (bind_eq _ _ _ _ _
             (canonical_quiet_row h c k g (Z.to_nat (width c)) fuel
                (Scan 0 (-1) (S754_zero false) (peak_height c) res)
                Himg ltac:(lia) (fun j p Hj Hp => Hq k j p ltac:(lia) Hj Hp)
                eq_refl ltac:(cbn; lia) ltac:(cbn; lia) Hfuel)).
  cbn [result]. apply IH; try assumption; lia.
Qed.

Lemma legacy_quiet_rows `{Libm} `{Rand} h c g fuel n : forall k res,
  rectangular h (width c) (image c) -> 0 <= width c ->
  (forall k j p, 0 <= k < h -> 0 <= j < width c ->
     mv_get (image c) k j = Some p ->
     fge (p - baseline c)%f32 (threshold c) = false) ->
  0 <= k -> k + Z.of_nat n = h -> (Z.to_nat (width c) <= fuel)%nat ->
  Legacy.scan_rows fuel c n k res g = Ok (res, g).
Proof.
  induction n as [| n IH]; intros k res Himg Hw Hq Hk Hn Hfuel;
    cbn [Legacy.scan_rows]; [reflexivity |].
  rewrite (bind_eq _ _ _ _ _
             (legacy_quiet_row h c k g (Z.to_nat (width c)) fuel
                (Scan 0 (-1) (S754_zero false) (S754_zero false) res)
                Himg ltac:(lia) (fun j p Hj Hp => Hq k j p ltac:(lia) Hj Hp)
                eq_refl ltac:(cbn; lia) ltac:(cbn; lia) Hfuel)).
  cbn [result]. apply IH; try assumption; lia.
Qed.

(** An image in which no sample exceeds the start threshold (the estimated
    peak height times the relative threshold, over the baseline) comes back
    as the all-zero array of its shape: no peak is started, nothing is
    written, and [rand()] is never called.  One unit of fuel per column is
    enough. *)
Theorem quiet_image_gives_zeros `{Libm} `{Rand} (fuel : nat) (image : array2)
    (h w : Z) (baseline countlevel peakwidth : double) (only_integrate : bool)
    (g : globals) :
  rectangular h w image ->
  (Z.to_nat w <= fuel)%nat ->
  (forall k j p, 0 <= k < h -> 0 <= j < w -> mv_get image k j = Some p ->
     fgt (p - float_of_double baseline)%f32
         (peak_height
            (Canonical.scan_consts image (shape1 image)
               (float_of_double baseline) (float_of_double countlevel)
               (float_of_double peakwidth) only_integrate)
          * threshold
              (Canonical.scan_consts image (shape1 image)
                 (float_of_double baseline) (float_of_double countlevel)
                 (float_of_double peakwidth) only_integrate))%f32 = false) ->
  exists g',
    Canonical.electron_counting fuel image baseline countlevel peakwidth
      only_integrate g = Ok (zeros image, g')
    /\ rand_calls g' = rand_calls g.
Proof.
  intros Himg Hfuel Hq.
  destruct (rectangular_shape h w image Himg) as (Hi & _ & Hh & Hw & Hw0).
  unfold Canonical.electron_counting, Canonical.c_electron_counting.
  set (c := Canonical.scan_consts image (shape1 image)
              (float_of_double baseline) (float_of_double countlevel)
              (float_of_double peakwidth) only_integrate) in *.
  set (g1 := Globals
               (create_factorials_loop (Z.to_nat factorials_table_length) 1
                  factorials_table_length (<[0%nat := 1]> (factorials_table g)))
               (rand_calls g)).
  assert (Hcreate : create_factorials_table factorials_table_length g
                    = Ok (tt, g1)) by reflexivity.
  exists g1. split; [| reflexivity].
  rewrite (bind_eq _ _ _ _ _ Hcreate).
  apply (canonical_quiet_rows (shape0 image) c g1 fuel
           (Z.to_nat (shape0 image)) 0 (zeros image)).
  - exact Hi.
  - exact Hw0.
  - intros k j p Hk Hj Hp. change (width c) with (shape1 image) in Hj.
    apply (Hq k j p); [lia | | exact Hp].
    rewrite <- (Hw ltac:(lia)). exact Hj.
  - lia.
  - unfold shape0. lia.
  - change (width c) with (shape1 image).
    destruct (Z_lt_le_dec 0 h) as [Hpos | Hz].
    + rewrite (Hw Hpos). exact Hfuel.
    + assert (image = []) as -> by (apply (rectangular_empty w); 
        destruct Himg as [Hl Hf]; split; [lia | exact Hf]).
      unfold shape1. simpl. lia.
Qed.

Lemma quiet_image_gives_zeros_witness :
  exists g',
    Canonical.electron_counting (L := ref_libm) (R := constant_rand 0) 3
      [[px 1 1000; px 5 1000; px 0 1]; [px 0 1; px 2 1000; px 6 1000]]
      (py 0 1) (py 1 10) (py 1 1) false initial_globals
    = Ok (zeros [[px 1 1000; px 5 1000; px 0 1];
                 [px 0 1; px 2 1000; px 6 1000]], g')
    /\ rand_calls g' = rand_calls initial_globals.
Proof.
  apply (quiet_image_gives_zeros (H := ref_libm) (H0 := constant_rand 0) 3
           [[px 1 1000; px 5 1000; px 0 1]; [px 0 1; px 2 1000; px 6 1000]]
           2 3).
  - split; [reflexivity | repeat constructor].
  - vm_compute. lia.
  - intros k j p Hk Hj.
    assert (Hkk : k = 0 \/ k = 1) by lia.
    assert (Hjj : j = 0 \/ j = 1 \/ j = 2) by lia.
    destruct Hkk as [-> | ->]; destruct Hjj as [-> | [-> | ->]];
      intros Hp; injection Hp as <-; vm_compute; reflexivity.
Defined.

(** The same for the earlier iteration, whose start threshold is
    [countlevel / 17] over the baseline. *)
Theorem legacy_quiet_image_gives_zeros `{Libm} `{Rand} (fuel : nat)
    (image : array2) (h w : Z) (baseline countlevel peakwidth : double)
    (g : globals) :
  rectangular h w image ->
  (Z.to_nat w <= fuel)%nat ->
  (forall k j p, 0 <= k < h -> 0 <= j < w -> mv_get image k j = Some p ->
     fge (p - float_of_double baseline)%f32
         (threshold
            (Legacy.scan_consts image (shape1 image)
               (float_of_double baseline) (float_of_double countlevel)
               (float_of_double peakwidth))) = false) ->
  exists g',
    Legacy.electron_counting fuel image baseline countlevel peakwidth g
    = Ok (zeros image, g')
    /\ rand_calls g' = rand_calls g.
Proof.
  intros Himg Hfuel Hq.
  destruct (rectangular_shape h w image Himg) as (Hi & _ & Hh & Hw & Hw0).
  unfold Legacy.electron_counting, Legacy.c_electron_counting.
  set (c := Legacy.scan_consts image (shape1 image)
              (float_of_double baseline) (float_of_double countlevel)
              (float_of_double peakwidth)) in *.
  set (g1 := Globals
               (create_factorials_loop (Z.to_nat factorials_table_length) 1
                  factorials_table_length (<[0%nat := 1]> (factorials_table g)))
               (rand_calls g)).
  assert (Hcreate : create_factorials_table factorials_table_length g
                    = Ok (tt, g1)) by reflexivity.
  exists g1. split; [| reflexivity].
  rewrite (bind_eq _ _ _ _ _ Hcreate).
  apply (legacy_quiet_rows (shape0 image) c g1 fuel
           (Z.to_nat (shape0 image)) 0 (zeros image)).
  - exact Hi.
  - exact Hw0.
  - intros k j p Hk Hj Hp. change (width c) with (shape1 image) in Hj.
    apply (Hq k j p); [lia | | exact Hp].
    rewrite <- (Hw ltac:(lia)). exact Hj.
  - lia.
  - unfold shape0. lia.
  - change (width c) with (shape1 image).
    destruct (Z_lt_le_dec 0 h) as [Hpos | Hz].
    + rewrite (Hw Hpos). exact Hfuel.
    + assert (image = []) as -> by (apply (rectangular_empty w); 
        destruct Himg as [Hl Hf]; split; [lia | exact Hf]).
      unfold shape1. simpl. lia.
Qed.

Lemma legacy_quiet_image_gives_zeros_witness :
  exists g',
    Legacy.electron_counting (L := ref_libm) (R := constant_rand 0) 3
      [[px 1 1000; px 2 1000; px 0 1]; [px 0 1; px 2 1000; px 25 10000]]
      (py 2 1000) (py 1 100) (py 1 1) initial_globals
    = Ok (zeros [[px 1 1000; px 2 1000; px 0 1];
                 [px 0 1; px 2 1000; px 25 10000]], g')
    /\ rand_calls g' = rand_calls initial_globals.
Proof.
  apply (legacy_quiet_image_gives_zeros (H := ref_libm)
           (H0 := constant_rand 0) 3
           [[px 1 1000; px 2 1000; px 0 1]; [px 0 1; px 2 1000; px 25 10000]]
           2 3).
  - split; [reflexivity | repeat constructor].
  - vm_compute. lia.
  - intros k j p Hk Hj.
    assert (Hkk : k = 0 \/ k = 1) by lia.
    assert (Hjj : j = 0 \/ j = 1 \/ j = 2) by lia.
    destruct Hkk as [-> | ->]; destruct Hjj as [-> | [-> | ->]];
      intros Hp; injection Hp as <-; vm_compute; reflexivity.
Defined.

(** ** Termination of the row scan *)

Lemma ensures_rand `{Rand} : ensures (fun r => exists n, r = rand_stream n) rand.
Proof.
  intros g r g' Hr. unfold rand in Hr. injection Hr as <- _. eexists. reflexivity.
Qed.

Lemma ensures_weaken {A} (P Q : A -> Prop) (m : M A) :
  ensures P m -> (forall a, P a -> Q a) -> ensures Q m.
Proof. intros Hm HPQ g a g' Hr. exact (HPQ a (Hm _ _ _ Hr)). Qed.

Lemma mv_get_some_inside h w (a : array2) k j v :
  rectangular h w a -> 0 <= k < h -> 0 <= j ->
  mv_get a k j = Some v -> j < w.
Proof.
  intros Ha Hk Hj Hget.
  destruct (rectangular_row h w a k Ha Hk) as (row & Hrow & Hlen).
  unfold mv_get in Hget.
  rewrite (mv_index_inside _ k) in Hget by (destruct Ha; lia).
  rewrite Hrow in Hget. unfold mv_index in Hget.
  destruct (Z.ltb_spec j 0); [lia |].
  destruct (Z.leb_spec 0 j); [| lia]. cbn [andb] in Hget.
  destruct (Z.ltb_spec j (Z.of_nat (length row))); [lia | discriminate].
Qed.

(** What the first [if]/[elif] of a step does to the position. *)
Definition after_close (w : Z) (s s1 : scan) : Prop :=
  (i s1 = i s /\ index s1 = index s)
  \/ (i s1 = i s /\ index s1 = -1 /\ 0 <= index s < i s)
  \/ (index s1 = i s1 /\ index s < i s1 < w /\ 0 <= index s).

Lemma scan_step_progress (w : Z) (s s1 : scan) :
  scan_inv w s -> i s < w -> after_close w s s1 ->
  forall idx2, (idx2 = index s1 \/ (index s1 = -1 /\ idx2 = i s1)) ->
  forall s', i s' = i s1 + 1 -> index s' = idx2 ->
  scan_inv w s' /\ 0 <= scan_measure w s' < scan_measure w s.
Proof.
  intros [Hi Hidx] Hlt Hclose idx2 H2 s' Hi' Hidx'.
  unfold scan_inv, scan_measure, scan_low. rewrite Hi', Hidx'.
  destruct Hclose as [[E1 E2] | [[E1 [E2 E3]] | [E1 [E2 E3]]]];
    destruct H2 as [-> | [E4 ->]];
    rewrite ?E1, ?E2 in *;
    repeat match goal with
    | |- context [ ?a =? ?b ] => destruct (Z.eqb_spec a b)
    end;
    try lia; split; try lia; try nia.
Qed.

Lemma canonical_scan_step_variant `{Libm} `{Rand} h c k s :
  rectangular h (width c) (image c) -> 0 <= k < h ->
  (forall n, 0 <= randnum_of (rand_stream n) (peaklength c)) ->
  scan_inv (width c) s -> i s < width c ->
  ensures (fun s' => scan_inv (width c) s'
                     /\ 0 <= scan_measure (width c) s'
                        < scan_measure (width c) s)
    (Canonical.scan_step c k s).
Proof.
  intros Himg Hk Hrand Hinv Hlt. unfold Canonical.scan_step.
  apply ensures_bind with (P := after_close (width c) s).
  - destruct (Z.eqb_spec (index s) (-1)) as [Hidx | Hidx]; cbn [negb].
    { apply ensures_ret. left. split; reflexivity. }
    assert (Hact : 0 <= index s < i s) by (destruct Hinv as [_ [? | ?]]; lia).
    skip_value.
    destruct (_ || _ || _).
    2: { apply ensures_ret. left. split; reflexivity. }
    skip_value. skip_value. skip_value.
    destruct (fgt _ _).
    2: { apply ensures_ret. right. left. cbn [i index]. repeat split; lia. }
    eapply ensures_bind; [apply ensures_rand |].
    intros r [n ->].
    eapply ensures_bind; [apply ensures_lift; intros y Hy; exact Hy |].
    intros y Hy. apply ensures_ret. right. right. cbn [i index].
    pose proof (Hrand n) as Hr.
    set (rn := randnum_of (rand_stream n) (peaklength c)) in *.
    pose proof (mv_get_some_inside h (width c) (image c) k
                  (index s + 1 + rn) y Himg Hk ltac:(lia) Hy) as Hin.
    repeat split; lia.
  - intros s1 Hs1.
    apply ensures_bind
      with (P := fun s2 => i s2 = i s1
                 /\ (index s2 = index s1 \/ (index s1 = -1 /\ index s2 = i s1))).
    + destruct (index s1 =? -1) eqn:E.
      * skip_value. destruct (fgt _ _); apply ensures_ret; cbn [i index].
        -- split; [reflexivity |]. right. split; [lia | reflexivity].
        -- split; [reflexivity |]. left. reflexivity.
      * apply ensures_ret. split; [reflexivity |]. left. reflexivity.
    + intros s2 [Hi2 Hidx2]. apply ensures_ret.
      apply (scan_step_progress (width c) s s1 Hinv Hlt Hs1 (index s2));
        [exact Hidx2 | cbn [i]; lia | reflexivity].
Qed.

Lemma within_fuel_ret {A} (a : A) : within_fuel (ret a).
Proof. intros g. discriminate. Qed.

Lemma within_fuel_lift {A} (o : option A) : within_fuel (lift o).
Proof. intros g. destruct o; discriminate. Qed.

Lemma within_fuel_get_table : within_fuel get_table.
Proof. intros g. discriminate. Qed.

Lemma within_fuel_rand `{Rand} : within_fuel rand.
Proof. intros g. discriminate. Qed.

Lemma within_fuel_bind {A B} (m : M A) (k : A -> M B) :
  within_fuel m -> (forall a, within_fuel (k a)) -> within_fuel (bind m k).
Proof.
  intros Hm Hk g. unfold bind. destruct (m g) as [[a g1] | f] eqn:E.
  - apply Hk.
  - intros Hf. apply (Hm g). rewrite E. injection Hf as ->. reflexivity.
Qed.

Ltac fuel_free :=
  repeat first
    [ apply within_fuel_ret
    | apply within_fuel_lift
    | apply within_fuel_get_table
    | apply within_fuel_rand
    | apply within_fuel_bind; [| intros ?]
    | match goal with
      | |- within_fuel (if ?b then _ else _) => destruct b
      end ].

Lemma canonical_scan_step_within_fuel `{Libm} `{Rand} c k s :
  within_fuel (Canonical.scan_step c k s).
Proof. unfold Canonical.scan_step. fuel_free. Qed.

Lemma scan_measure_nonneg w s : scan_inv w s -> 0 <= scan_measure w s.
Proof.
  intros [Hi Hidx]. unfold scan_measure, scan_low.
  destruct (Z.eqb_spec (index s) (-1)); nia.
Qed.

Lemma canonical_scan_row_within_fuel `{Libm} `{Rand} h c k fuel : forall s,
  rectangular h (width c) (image c) -> 0 <= k < h ->
  (forall n, 0 <= randnum_of (rand_stream n) (peaklength c)) ->
  scan_inv (width c) s ->
  scan_measure (width c) s < Z.of_nat fuel ->
  within_fuel (Canonical.scan_row fuel c k s).
Proof.
  induction fuel as [| fuel IH]; intros s Himg Hk Hrand Hinv Hm.
  - pose proof (scan_measure_nonneg _ _ Hinv). lia.
  - cbn [Canonical.scan_row].
    destruct (Z.ltb_spec (i s) (width c)) as [Hlt | _];
      [| apply within_fuel_ret].
    intros g. unfold bind.
    destruct (Canonical.scan_step c k s g) as [[s' g1] | f] eqn:E.
    + destruct (canonical_scan_step_variant h c k s Himg Hk Hrand Hinv Hlt
                  _ _ _ E) as [Hinv' Hm'].
      apply IH; try assumption. lia.
    + intros Hf. apply (canonical_scan_step_within_fuel c k s g).
      rewrite E. injection Hf as ->. reflexivity.
Qed.

Lemma canonical_scan_rows_within_fuel `{Libm} `{Rand} h c fuel n : forall k res,
  rectangular h (width c) (image c) -> 0 <= k -> k + Z.of_nat n <= h ->
  (forall n, 0 <= randnum_of (rand_stream n) (peaklength c)) ->
  (width c + 2) * (width c + 2) <= Z.of_nat fuel ->
  within_fuel (Canonical.scan_rows fuel c n k res).
Proof.
  induction n as [| n IH]; intros k res Himg Hk Hn Hrand Hfuel;
    cbn [Canonical.scan_rows]; [apply within_fuel_ret |].
  apply within_fuel_bind.
  - destruct (Z_lt_le_dec (width c) 0) as [Hneg | Hw].
    + destruct fuel; cbn [Canonical.scan_row i];
        (destruct (Z.ltb_spec 0 (width c)); [lia | apply within_fuel_ret]).
    + apply (canonical_scan_row_within_fuel h); try assumption; try lia.
      * split; cbn [i index]; [lia | left; reflexivity].
      * unfold scan_measure, scan_low. cbn [i index]. 
        change (-1 =? -1) with true. cbv iota. nia.
  - intros s. apply IH; try assumption; lia.
Qed.


Lemma legacy_scan_step_variant `{Libm} `{Rand} h c k s :
  rectangular h (width c) (image c) -> 0 <= k < h ->
  (forall n, 0 <= randnum_of (rand_stream n) (peaklength c)) ->
  scan_inv (width c) s -> i s < width c ->
  ensures (fun s' => scan_inv (width c) s'
                     /\ 0 <= scan_measure (width c) s'
                        < scan_measure (width c) s)
    (Legacy.scan_step c k s).
Proof.
  intros Himg Hk Hrand Hinv Hlt. unfold Legacy.scan_step.
  apply ensures_bind with (P := after_close (width c) s).
  - destruct (Z.eqb_spec (index s) (-1)) as [Hidx | Hidx]; cbn [negb].
    { apply ensures_ret. left. split; reflexivity. }
    assert (Hact : 0 <= index s < i s) by (destruct Hinv as [_ [? | ?]]; lia).
    skip_value.
    destruct (_ || _ || _).
    2: { apply ensures_ret. left. split; reflexivity. }
    skip_value. skip_value. skip_value.
    destruct (fge _ _).
    2: { apply ensures_ret. right. left. cbn [i index]. repeat split; lia. }
    eapply ensures_bind; [apply ensures_rand |].
    intros r [n ->].
    eapply ensures_bind; [apply ensures_lift; intros y Hy; exact Hy |].
    intros y Hy. apply ensures_ret. right. right. cbn [i index].
    pose proof (Hrand n) as Hr.
    set (rn := randnum_of (rand_stream n) (peaklength c)) in *.
    pose proof (mv_get_some_inside h (width c) (image c) k
                  (index s + 1 + rn) y Himg Hk ltac:(lia) Hy) as Hin.
    repeat split; lia.
  - intros s1 Hs1.
    apply ensures_bind
      with (P := fun s2 => i s2 = i s1
                 /\ (index s2 = index s1 \/ (index s1 = -1 /\ index s2 = i s1))).
    + destruct (index s1 =? -1) eqn:E.
      * skip_value. destruct (fge _ _); apply ensures_ret; cbn [i index].
        -- split; [reflexivity |]. right. split; [lia | reflexivity].
        -- split; [reflexivity |]. left. reflexivity.
      * apply ensures_ret. split; [reflexivity |]. left. reflexivity.
    + intros s2 [Hi2 Hidx2]. apply ensures_ret.
      apply (scan_step_progress (width c) s s1 Hinv Hlt Hs1 (index s2));
        [exact Hidx2 | cbn [i]; lia | reflexivity].
Qed.

Lemma legacy_scan_step_within_fuel `{Libm} `{Rand} c k s :
  within_fuel (Legacy.scan_step c k s).
Proof. unfold Legacy.scan_step. fuel_free. Qed.

Lemma legacy_scan_row_within_fuel `{Libm} `{Rand} h c k fuel : forall s,
  rectangular h (width c) (image c) -> 0 <= k < h ->
  (forall n, 0 <= randnum_of (rand_stream n) (peaklength c)) ->
  scan_inv (width c) s ->
  scan_measure (width c) s < Z.of_nat fuel ->
  within_fuel (Legacy.scan_row fuel c k s).
Proof.
  induction fuel as [| fuel IH]; intros s Himg Hk Hrand Hinv Hm.
  - pose proof (scan_measure_nonneg _ _ Hinv). lia.
  - cbn [Legacy.scan_row].
    destruct (Z.ltb_spec (i s) (width c)) as [Hlt | _];
      [| apply within_fuel_ret].
    intros g. unfold bind.
    destruct (Legacy.scan_step c k s g) as [[s' g1] | f] eqn:E.
    + destruct (legacy_scan_step_variant h c k s Himg Hk Hrand Hinv Hlt
                  _ _ _ E) as [Hinv' Hm'].
      apply IH; try assumption. lia.
    + intros Hf. apply (legacy_scan_step_within_fuel c k s g).
      rewrite E. injection Hf as ->. reflexivity.
Qed.

Lemma legacy_scan_rows_within_fuel `{Libm} `{Rand} h c fuel n : forall k res,
  rectangular h (width c) (image c) -> 0 <= k -> k + Z.of_nat n <= h ->
  (forall n, 0 <= randnum_of (rand_stream n) (peaklength c)) ->
  (width c + 2) * (width c + 2) <= Z.of_nat fuel ->
  within_fuel (Legacy.scan_rows fuel c n k res).
Proof.
  induction n as [| n IH]; intros k res Himg Hk Hn Hrand Hfuel;
    cbn [Legacy.scan_rows]; [apply within_fuel_ret |].
  apply within_fuel_bind.
  - destruct (Z_lt_le_dec (width c) 0) as [Hneg | Hw].
    + destruct fuel; cbn [Legacy.scan_row i];
        (destruct (Z.ltb_spec 0 (width c)); [lia | apply within_fuel_ret]).
    + apply (legacy_scan_row_within_fuel h); try assumption; try lia.
      * split; cbn [i index]; [lia | left; reflexivity].
      * unfold scan_measure, scan_low. cbn [i index]. 
        change (-1 =? -1) with true. cbv iota. nia.
  - intros s. apply IH; try assumption; lia.
Qed.

Lemma within_fuel_create (len : Z) : within_fuel (create_factorials_table len).
Proof. intros g. discriminate. Qed.

(** With restart offsets that are not negative, the scan of an image of
    width [w] needs at most [(w + 2)^2] iterations of the column loop per
    row: [electron_counting] either returns its result or stops at an access
    outside the image, it does not run on. *)
Theorem electron_counting_terminates `{Libm} `{Rand} (fuel : nat)
    (image : array2) (h w : Z) (baseline countlevel peakwidth : double)
    (only_integrate : bool) (g : globals) :
  rectangular h w image ->
  (forall n,
     0 <= randnum_of (rand_stream n)
            (peaklength
               (Canonical.scan_consts image (shape1 image)
                  (float_of_double baseline) (float_of_double countlevel)
                  (float_of_double peakwidth) only_integrate))) ->
  (w + 2) * (w + 2) <= Z.of_nat fuel ->
  (exists res g',
     Canonical.electron_counting fuel image baseline countlevel peakwidth
       only_integrate g = Ok (res, g'))
  \/ Canonical.electron_counting fuel image baseline countlevel peakwidth
       only_integrate g = Fault OutOfBounds.
Proof.
  intros Himg Hrand Hfuel.
  assert (Hwf : within_fuel
                  (Canonical.electron_counting fuel image baseline countlevel
                     peakwidth only_integrate)).
  { destruct (rectangular_shape h w image Himg) as (Hi & _ & Hh & Hw & Hw0).
    unfold Canonical.electron_counting, Canonical.c_electron_counting.
    apply within_fuel_bind; [apply within_fuel_create | intros _].
    destruct (Z_lt_le_dec 0 h) as [Hpos | Hz].
    - apply (canonical_scan_rows_within_fuel (shape0 image)).
      + exact Hi.
      + lia.
      + unfold shape0. lia.
      + exact Hrand.
      + change (width _) with (shape1 image). rewrite (Hw Hpos). exact Hfuel.
    - assert (image = []) as ->.
      { apply (rectangular_empty w). destruct Himg as [Hl Hf].
        split; [lia | exact Hf]. }
      apply within_fuel_ret. }
  destruct (Canonical.electron_counting fuel image baseline countlevel
              peakwidth only_integrate g) as [[res g'] | [|]] eqn:E.
  - left. exists res, g'. reflexivity.
  - right. reflexivity.
  - exfalso. exact (Hwf g E).
Qed.

Lemma electron_counting_terminates_witness :
  (exists res g',
     Canonical.electron_counting (L := ref_libm)
       (R := constant_rand 2147483647) 100 row_wide_pulse
       (py 0 1) (py 1 10) (py 1 1) false initial_globals = Ok (res, g'))
  \/ Canonical.electron_counting (L := ref_libm)
       (R := constant_rand 2147483647) 100 row_wide_pulse
       (py 0 1) (py 1 10) (py 1 1) false initial_globals = Fault OutOfBounds.
Proof.
  apply (electron_counting_terminates (H := ref_libm)
           (H0 := constant_rand 2147483647) 100 row_wide_pulse 1 8).
  - split; [reflexivity | repeat constructor].
  - intros n. vm_compute. discriminate.
  - vm_compute. discriminate.
Defined.

(** The same bound for the earlier iteration. *)
Theorem legacy_electron_counting_terminates `{Libm} `{Rand} (fuel : nat)
    (image : array2) (h w : Z) (baseline countlevel peakwidth : double)
    (g : globals) :
  rectangular h w image ->
  (forall n,
     0 <= randnum_of (rand_stream n)
            (peaklength
               (Legacy.scan_consts image (shape1 image)
                  (float_of_double baseline) (float_of_double countlevel)
                  (float_of_double peakwidth)))) ->
  (w + 2) * (w + 2) <= Z.of_nat fuel ->
  (exists res g',
     Legacy.electron_counting fuel image baseline countlevel peakwidth g
     = Ok (res, g'))
  \/ Legacy.electron_counting fuel image baseline countlevel peakwidth g
     = Fault OutOfBounds.
Proof.
  intros Himg Hrand Hfuel.
  assert (Hwf : within_fuel
                  (Legacy.electron_counting fuel image baseline countlevel
                     peakwidth)).
  { destruct (rectangular_shape h w image Himg) as (Hi & _ & Hh & Hw & Hw0).
    unfold Legacy.electron_counting, Legacy.c_electron_counting.
    apply within_fuel_bind; [apply within_fuel_create | intros _].
    destruct (Z_lt_le_dec 0 h) as [Hpos | Hz].
    - apply (legacy_scan_rows_within_fuel (shape0 image)).
      + exact Hi.
      + lia.
      + unfold shape0. lia.
      + exact Hrand.
      + change (width _) with (shape1 image). rewrite (Hw Hpos). exact Hfuel.
    - assert (image = []) as ->.
      { apply (rectangular_empty w). destruct Himg as [Hl Hf].
        split; [lia | exact Hf]. }
      apply within_fuel_ret. }
  destruct (Legacy.electron_counting fuel image baseline countlevel
              peakwidth g) as [[res g'] | [|]] eqn:E.
  - left. exists res, g'. reflexivity.
  - right. reflexivity.
  - exfalso. exact (Hwf g E).
Qed.

Lemma legacy_electron_counting_terminates_witness :
  (exists res g',
     Legacy.electron_counting (L := ref_libm)
       (R := constant_rand 1073741823) 25 row_pulse_at_end
       (py 2 1000) (py 1 100) (py 1 1) initial_globals = Ok (res, g'))
  \/ Legacy.electron_counting (L := ref_libm)
       (R := constant_rand 1073741823) 25 row_pulse_at_end
       (py 2 1000) (py 1 100) (py 1 1) initial_globals = Fault OutOfBounds.
Proof.
  apply (legacy_electron_counting_terminates (H := ref_libm)
           (H0 := constant_rand 1073741823) 25 row_pulse_at_end 1 3).
  - split; [reflexivity | repeat constructor].
  - intros n. vm_compute. discriminate.
  - vm_compute. discriminate.
Defined.

(** ** The restart of a truncated peak *)

(** When a step closes the active peak with the sample still above the
    threshold, it writes the peak's value at the peak's start column, draws
    one random number, and restarts at column
    [col = index + 1 + randnum]: if the memoryview has a sample [y] at [col]
    (with a negative [col] counted from the end of the row), the step leaves
    [index = col] and [integral = y], the raw sample, resets [peak_max] and
    moves to column [col + 1]; if there is none, the step reads outside the
    image.  For [col <> -1] a peak is then active from [col] on.  For
    [col = -1], which a negative offset reaches, [index] holds the marker of
    no active peak: the sample [y] is read once more, no peak is active, and
    the scan goes on at column [0]. *)
Theorem restart_of_truncated_peak `{Libm} `{Rand} (c : consts) (k : Z)
    (s : scan) (x v : float) (res : array2) (col : Z) (g : globals) :
  index s <> -1 ->
  mv_get (image c) k (i s) = Some x ->
  fle (x - baseline c)%f32 (peak_max s * threshold c)%f32
  || (peaklength c <=? i s - index s) || (i s =? width c - 1) = true ->
  fgt (x - baseline c)%f32 (peak_max s * threshold c)%f32 = true ->
  v = (if only_integrate c then integral s
       else Canonical.c_find_most_likely_counts (factorials_table g)
              (integral s / counts_divisor c)%f32) ->
  mv_set (result s) k (index s) v = Some res ->
  col = index s + 1
        + randnum_of (rand_stream (rand_calls g)) (peaklength c) ->
  (forall y, mv_get (image c) k col = Some y ->
     Canonical.scan_step c k s g
     = Ok (Scan (col + 1) col y (peak_height c) res,
           Globals (factorials_table g) (S (rand_calls g))))
  /\ (mv_get (image c) k col = None ->
      Canonical.scan_step c k s g = Fault OutOfBounds).
Proof.
  intros Hidx Hx Hclose Habove Hv Hset Hcol.
  assert (Hne : (index s =? -1) = false) by (apply Z.eqb_neq; exact Hidx).
  assert (Hstep :
    Canonical.scan_step c k s g
    = match mv_get (image c) k col with
      | Some y => Ok (Scan (col + 1) col y (peak_height c) res,
                      Globals (factorials_table g) (S (rand_calls g)))
      | None => Fault OutOfBounds
      end).
  { unfold Canonical.scan_step, bind, lift, ret, fail, rand, get_table.
    rewrite Hne. cbn [negb]. rewrite Hx. cbv beta iota. rewrite Hclose.
    destruct (only_integrate c); subst v; rewrite Hset; cbv beta iota;
      rewrite Habove; cbv beta iota; rewrite <- Hcol;
      (destruct (mv_get (image c) k col) as [y |] eqn:Hy; [| reflexivity]);
      cbn [index i integral peak_max result];
      (destruct (col =? -1); [| reflexivity]);
      rewrite Hy; cbv beta iota;
      destruct (fgt (y - baseline c)%f32 _); reflexivity. }
  split.
  - intros y Hy. rewrite Hstep, Hy. reflexivity.
  - intros Hnone. rewrite Hstep, Hnone. reflexivity.
Qed.

(** Two runs: a restart inside the row, at column [5]; and, with a negative
    peak width, a restart at column [-1] from the state that the first
    iteration of the row [1 1 1] reaches, after which the scan is back at
    column [0] with no peak active. *)
Lemma restart_of_truncated_peak_witness :
  Canonical.scan_step (L := ref_libm) (R := constant_rand 2147483647)
    (Canonical.scan_consts (L := ref_libm) row_wide_pulse 8
       (px 0 1) (px 1 10) (px 1 1) true)
    0 (Scan 4 0 (px 4 1) (px 1 1) (zeros row_wide_pulse)) table_built
  = Ok (Scan (5 + 1) 5 (px 1 1)
          (peak_height
             (Canonical.scan_consts (L := ref_libm) row_wide_pulse 8
                (px 0 1) (px 1 10) (px 1 1) true))
          [[px 4 1; px 0 1; px 0 1; px 0 1; px 0 1; px 0 1; px 0 1; px 0 1]],
        Globals (factorials_table table_built) (S (rand_calls table_built)))
  /\ (let c := Canonical.scan_consts (L := ref_libm)
                 [[px 1 1; px 1 1; px 1 1]] 3
                 (px 0 1) (px 1 10) (px (-1) 1) true in
      iterations
        (Canonical.scan_step (L := ref_libm) (R := constant_rand 1073741823)
           c 0) 3 1
        (Scan 0 (-1) (S754_zero false) (peak_height c)
           [[px 0 1; px 0 1; px 0 1]]) table_built
      = Ok (Scan 1 0 (px 1 1) (peak_height c) [[px 0 1; px 0 1; px 0 1]],
            table_built)
      /\ Canonical.scan_step (L := ref_libm) (R := constant_rand 1073741823)
           c 0 (Scan 1 0 (px 1 1) (peak_height c) [[px 0 1; px 0 1; px 0 1]])
           table_built
         = Ok (Scan (-1 + 1) (-1) (px 1 1) (peak_height c)
                 [[px 1 1; px 0 1; px 0 1]],
               Globals (factorials_table table_built)
                 (S (rand_calls table_built)))).
Proof.
  split; [| split; [vm_compute; reflexivity |]].
  - refine (proj1 (restart_of_truncated_peak (H := ref_libm)
                     (H0 := constant_rand 2147483647)
                     (Canonical.scan_consts (L := ref_libm) row_wide_pulse 8
                        (px 0 1) (px 1 10) (px 1 1) true)
                     0 (Scan 4 0 (px 4 1) (px 1 1) (zeros row_wide_pulse))
                     (px 1 1) (px 4 1)
                     [[px 4 1; px 0 1; px 0 1; px 0 1; px 0 1; px 0 1; px 0 1;
                       px 0 1]]
                     5 table_built _ _ _ _ _ _ _) (px 1 1) _);
      vm_compute; first [reflexivity | discriminate].
  - refine (proj1 (restart_of_truncated_peak (H := ref_libm)
                     (H0 := constant_rand 1073741823)
                     (Canonical.scan_consts (L := ref_libm)
                        [[px 1 1; px 1 1; px 1 1]] 3
                        (px 0 1) (px 1 10) (px (-1) 1) true)
                     0 (Scan 1 0 (px 1 1)
                          (peak_height
                             (Canonical.scan_consts (L := ref_libm)
                                [[px 1 1; px 1 1; px 1 1]] 3
                                (px 0 1) (px 1 10) (px (-1) 1) true))
                          [[px 0 1; px 0 1; px 0 1]])
                     (px 1 1) (px 1 1)
                     [[px 1 1; px 0 1; px 0 1]]
                     (-1) table_built _ _ _ _ _ _ _) (px 1 1) _);
      vm_compute; first [reflexivity | discriminate].
Defined.

(** The same step in the earlier iteration, which always counts and has no
    adaptive threshold: the restart column [col = index + 1 + randnum] becomes
    [index], the raw sample there the integral, [peak_max] stays, and the
    scan moves to [col + 1]; without a sample at [col] the step reads outside
    the image.  Here too [col = -1] leaves [index] at the marker of no active
    peak, and the scan goes on at column [0]. *)
Theorem legacy_restart_of_truncated_peak `{Libm} `{Rand} (c : consts) (k : Z)
    (s : scan) (x : float) (res : array2) (col : Z) (g : globals) :
  index s <> -1 ->
  mv_get (image c) k (i s) = Some x ->
  flt (x - baseline c)%f32 (threshold c)
  || (peaklength c <=? i s - index s) || (i s =? width c - 1) = true ->
  fge (x - baseline c)%f32 (threshold c) = true ->
  mv_set (result s) k (index s)
    (Legacy.find_most_likely_counts (factorials_table g)
       (integral s / counts_divisor c)%f32) = Some res ->
  col = index s + 1
        + randnum_of (rand_stream (rand_calls g)) (peaklength c) ->
  (forall y, mv_get (image c) k col = Some y ->
     Legacy.scan_step c k s g
     = Ok (Scan (col + 1) col y (peak_max s) res,
           Globals (factorials_table g) (S (rand_calls g))))
  /\ (mv_get (image c) k col = None ->
      Legacy.scan_step c k s g = Fault OutOfBounds).
Proof.
  intros Hidx Hx Hclose Habove Hset Hcol.
  assert (Hne : (index s =? -1) = false) by (apply Z.eqb_neq; exact Hidx).
  assert (Hstep :
    Legacy.scan_step c k s g
    = match mv_get (image c) k col with
      | Some y => Ok (Scan (col + 1) col y (peak_max s) res,
                      Globals (factorials_table g) (S (rand_calls g)))
      | None => Fault OutOfBounds
      end).
  { unfold Legacy.scan_step, bind, lift, ret, fail, rand, get_table.
    rewrite Hne. cbn [negb]. rewrite Hx. cbv beta iota. rewrite Hclose.
    rewrite Hset. cbv beta iota. rewrite Habove. cbv beta iota.
    rewrite <- Hcol.
    destruct (mv_get (image c) k col) as [y |] eqn:Hy; [| reflexivity].
    cbn [index i integral peak_max result].
    destruct (col =? -1); [| reflexivity].
    rewrite Hy. cbv beta iota.
    destruct (fge (y - baseline c)%f32 _); reflexivity. }
  split.
  - intros y Hy. rewrite Hstep, Hy. reflexivity.
  - intros Hnone. rewrite Hstep, Hnone. reflexivity.
Qed.

(** Two runs: a restart outside the row; and, with a negative peak width, a
    restart at column [-1] from the state that the first iteration of the row
    [1 1 1] reaches. *)
Lemma legacy_restart_of_truncated_peak_witness :
  Legacy.scan_step (L := ref_libm) (R := constant_rand 1073741823)
    (Legacy.scan_consts (L := ref_libm) row_pulse_at_end 3
       (px 2 1000) (px 1 100) (px 1 1))
    0 (Scan 2 1 (px 1 1) (px 0 1) (zeros row_pulse_at_end)) table_built
  = Fault OutOfBounds
  /\ (let c := Legacy.scan_consts (L := ref_libm)
                 [[px 1 1; px 1 1; px 1 1]] 3
                 (px 2 1000) (px 1 100) (px (-1) 1) in
      iterations
        (Legacy.scan_step (L := ref_libm) (R := constant_rand 536870912) c 0)
        3 1
        (Scan 0 (-1) (S754_zero false) (S754_zero false)
           [[px 0 1; px 0 1; px 0 1]]) table_built
      = Ok (Scan 1 0 (px 1 1) (px 0 1) [[px 0 1; px 0 1; px 0 1]],
            table_built)
      /\ Legacy.scan_step (L := ref_libm) (R := constant_rand 536870912) c 0
           (Scan 1 0 (px 1 1) (px 0 1) [[px 0 1; px 0 1; px 0 1]])
           table_built
         = Ok (Scan (-1 + 1) (-1) (px 1 1) (px 0 1)
                 [[px 20 1; px 0 1; px 0 1]],
               Globals (factorials_table table_built)
                 (S (rand_calls table_built)))).
Proof.
  split; [| split; [vm_compute; reflexivity |]].
  - refine (proj2 (legacy_restart_of_truncated_peak (H := ref_libm)
                     (H0 := constant_rand 1073741823)
                     (Legacy.scan_consts (L := ref_libm) row_pulse_at_end 3
                        (px 2 1000) (px 1 100) (px 1 1))
                     0 (Scan 2 1 (px 1 1) (px 0 1) (zeros row_pulse_at_end))
                     (px 1 1)
                     [[px 0 1; px 20 1; px 0 1]]
                     6 table_built _ _ _ _ _ _) _);
      vm_compute; first [reflexivity | discriminate].
  - refine (proj1 (legacy_restart_of_truncated_peak (H := ref_libm)
                     (H0 := constant_rand 536870912)
                     (Legacy.scan_consts (L := ref_libm)
                        [[px 1 1; px 1 1; px 1 1]] 3
                        (px 2 1000) (px 1 100) (px (-1) 1))
                     0 (Scan 1 0 (px 1 1) (px 0 1)
                          [[px 0 1; px 0 1; px 0 1]])
                     (px 1 1)
                     [[px 20 1; px 0 1; px 0 1]]
                     (-1) table_built _ _ _ _ _ _) (px 1 1) _);
      vm_compute; first [reflexivity | discriminate].
Defined.

(** ** One isolated sample *)

Lemma canonical_quiet_run `{Libm} `{Rand} h c k g n : forall fuel s,
  rectangular h (width c) (image c) -> 0 <= k < h ->
  (forall j p, i s <= j < i s + Z.of_nat n ->
     mv_get (image c) k j = Some p ->
     fgt (p - baseline c)%f32 (peak_max s * threshold c)%f32 = false) ->
  index s = -1 -> 0 <= i s -> i s + Z.of_nat n <= width c ->
  Canonical.scan_row (n + fuel) c k s g
  = Canonical.scan_row fuel c k
      (Scan (i s + Z.of_nat n) (-1) (integral s) (peak_max s) (result s)) g.
Proof.
  induction n as [| n IH]; intros fuel s Himg Hk Hq Hidx Hi Hn.
  - destruct s as [si sidx sint spm sres].
    cbn [i index integral peak_max result] in *. subst sidx.
    replace (si + Z.of_nat 0) with si by lia. reflexivity.
  - change (S n + fuel)%nat with (S (n + fuel)). cbn [Canonical.scan_row].
    destruct (Z.ltb_spec (i s) (width c)); [| lia].
    destruct (mv_get_inside h (width c) (image c) k (i s) Himg Hk) as [p Hp];
      [lia |].
    rewrite (bind_eq _ _ _ _ _
               (canonical_quiet_step c k s p g Hidx Hp
                  (Hq (i s) p ltac:(lia) Hp))).
    rewrite (IH fuel); cbn [i index integral peak_max result];
      try assumption; try lia.
    + replace (i s + 1 + Z.of_nat n) with (i s + Z.of_nat (S n)) by lia.
      reflexivity.
    + intros j q Hj. apply Hq. lia.
Qed.

Lemma canonical_start_step `{Libm} `{Rand} c k s p g :
  index s = -1 -> i s <> -1 ->
  mv_get (image c) k (i s) = Some p ->
  fgt (p - baseline c)%f32 (peak_max s * threshold c)%f32 = true ->
  Canonical.scan_step c k s g
  = Ok (Scan (i s + 1) (i s) p (peak_max s) (result s), g).
Proof.
  intros Hidx Hi Hp Habove.
  unfold Canonical.scan_step, bind, lift, ret, fail, rand, get_table.
  rewrite Hidx. change (negb (-1 =? -1)) with false. cbv beta iota.
  rewrite Hidx. change (-1 =? -1) with true. cbv beta iota.
  rewrite Hp. cbv beta iota. rewrite Habove.
  cbn [i index integral peak_max result]. reflexivity.
Qed.

Lemma canonical_close_step `{Libm} `{Rand} c k s q v res g :
  index s <> -1 ->
  mv_get (image c) k (i s) = Some q ->
  fle (q - baseline c)%f32 (peak_max s * threshold c)%f32 = true ->
  fle (q - baseline c)%f32 (peak_height c * threshold c)%f32 = true ->
  v = (if only_integrate c then integral s
       else Canonical.c_find_most_likely_counts (factorials_table g)
              (integral s / counts_divisor c)%f32) ->
  mv_set (result s) k (index s) v = Some res ->
  Canonical.scan_step c k s g
  = Ok (Scan (i s + 1) (-1) (S754_zero false) (peak_height c) res, g).
Proof.
  intros Hidx Hq Hle Hle' Hv Hset.
  assert (Hne : (index s =? -1) = false) by (apply Z.eqb_neq; exact Hidx).
  pose proof (fle_not_flt _ _ Hle) as Hnot.
  pose proof (fle_not_flt _ _ Hle') as Hnot'.
  unfold flt in Hnot, Hnot'.
  unfold Canonical.scan_step, bind, lift, ret, fail, rand, get_table.
  rewrite Hne. cbn [negb]. rewrite Hq. cbv beta iota. rewrite Hle.
  cbn [orb].
  destruct (only_integrate c); subst v; rewrite Hset; cbv beta iota;
    unfold fgt; rewrite Hnot; cbv beta iota;
    cbn [index i integral peak_max result];
    change (-1 =? -1) with true; cbv beta iota; rewrite Hq; cbv beta iota;
    rewrite Hnot'; reflexivity.
Qed.

Lemma canonical_scan_row_done `{Libm} `{Rand} fuel c k s g :
  width c <= i s -> Canonical.scan_row fuel c k s g = Ok (s, g).
Proof.
  intros Hi. destruct fuel; cbn [Canonical.scan_row];
    (destruct (Z.ltb_spec (i s) (width c)); [lia | reflexivity]).
Qed.

Lemma canonical_isolated_row `{Libm} `{Rand} h c k g j p q v fuel res :
  rectangular h (width c) (image c) -> rectangular h (width c) res ->
  0 <= k < h -> 0 <= j -> j + 1 < width c ->
  (Z.to_nat (width c) <= fuel)%nat ->
  mv_get (image c) k j = Some p ->
  mv_get (image c) k (j + 1) = Some q ->
  fgt (p - baseline c)%f32 (peak_height c * threshold c)%f32 = true ->
  fle (q - baseline c)%f32 (peak_height c * threshold c)%f32 = true ->
  (forall j' p', 0 <= j' < width c -> j' <> j ->
     mv_get (image c) k j' = Some p' ->
     fgt (p' - baseline c)%f32 (peak_height c * threshold c)%f32 = false) ->
  v = (if only_integrate c then p
       else Canonical.c_find_most_likely_counts (factorials_table g)
              (p / counts_divisor c)%f32) ->
  exists res',
    mv_set res k j v = Some res'
    /\ Canonical.scan_row fuel c k
         (Scan 0 (-1) (S754_zero false) (peak_height c) res) g
       = Ok (Scan (width c) (-1) (S754_zero false) (peak_height c) res', g).
Proof.
  intros Himg Hres Hk Hj Hj1 Hfuel Hp Hq Habove Hbelow Hquiet Hv.
  destruct (mv_set_inside h (width c) res k j v Hres Hk ltac:(lia))
    as (res' & Hset & Hres' & _ & _).
  exists res'. split; [exact Hset |].
  set (rest := Z.to_nat (width c - j - 2)).
  assert (Hsplit : fuel = (Z.to_nat j + S (S (rest + (fuel - Z.to_nat (width c)))))%nat)
    by (unfold rest; lia).
  rewrite Hsplit.
  rewrite (canonical_quiet_run h c k g (Z.to_nat j)); cbn [i index integral peak_max result];
    try assumption; try lia.
  2: { intros j' p' Hj'. apply Hquiet; lia. }
  replace (0 + Z.of_nat (Z.to_nat j)) with j by lia.
  cbn [Canonical.scan_row i].
  destruct (Z.ltb_spec j (width c)); [| lia].
  rewrite (bind_eq _ _ _ _ _
             (canonical_start_step c k
                (Scan j (-1) (S754_zero false) (peak_height c) res) p g
                eq_refl ltac:(cbn [i]; lia) Hp Habove)).
  cbn [Canonical.scan_row i index integral peak_max result].
  destruct (Z.ltb_spec (j + 1) (width c)); [| lia].
  rewrite (bind_eq _ _ _ _ _
             (canonical_close_step c k
                (Scan (j + 1) j p (peak_height c) res) q v res' g
                ltac:(cbn [index]; lia) Hq Hbelow Hbelow Hv Hset)).
  cbn [i index integral peak_max result].
  rewrite (canonical_quiet_run h c k g rest);
    cbn [i index integral peak_max result]; try assumption;
    try (unfold rest; lia).
  2: { intros j' p' Hj'. apply Hquiet; unfold rest in Hj'; lia. }
  replace (j + 1 + 1 + Z.of_nat rest) with (width c) by (unfold rest; lia).
  apply canonical_scan_row_done. cbn [i]. lia.
Qed.

Lemma canonical_quiet_rows_run `{Libm} `{Rand} h c g fuel n m : forall k res,
  rectangular h (width c) (image c) -> 0 <= width c ->
  (forall k' j p, k <= k' < k + Z.of_nat n -> 0 <= j < width c ->
     mv_get (image c) k' j = Some p ->
     fgt (p - baseline c)%f32 (peak_height c * threshold c)%f32 = false) ->
  0 <= k -> k + Z.of_nat n <= h -> (Z.to_nat (width c) <= fuel)%nat ->
  Canonical.scan_rows fuel c (n + m) k res g
  = Canonical.scan_rows fuel c m (k + Z.of_nat n) res g.
Proof.
  induction n as [| n IH]; intros k res Himg Hw Hq Hk Hn Hfuel.
  - replace (k + Z.of_nat 0) with k by lia. reflexivity.
  - change (S n + m)%nat with (S (n + m)). cbn [Canonical.scan_rows].
    rewrite (bind_eq _ _ _ _ _
               (canonical_quiet_row h c k g (Z.to_nat (width c)) fuel
                  (Scan 0 (-1) (S754_zero false) (peak_height c) res)
                  Himg ltac:(lia)
                  (fun j p Hj Hp => Hq k j p ltac:(lia) Hj Hp)
                  eq_refl ltac:(cbn; lia) ltac:(cbn; lia) Hfuel)).
    cbn [result]. rewrite (IH (k + 1) res); try assumption; try lia.
    + f_equal. lia.
    + intros k' j p Hk'. apply Hq. lia.
Qed.

Lemma mv_get_zeros h w (a : array2) k j :
  rectangular h w a -> 0 <= k < h -> 0 <= j < w ->
  mv_get (zeros a) k j = Some (S754_zero false).
Proof.
  intros Ha Hk Hj.
  destruct (rectangular_shape h w a Ha) as (_ & Hz & Hh & Hw & _).
  rewrite Hh, (Hw ltac:(lia)) in Hz.
  destruct (rectangular_row h w (zeros a) k Hz Hk) as (row & Hrow & Hlen).
  unfold mv_get. destruct Hz as [Hzh _].
  rewrite (mv_index_inside _ k) by lia.
  rewrite Hrow, (mv_index_inside _ j) by lia.
  unfold zeros in Hrow. apply lookup_replicate in Hrow as [-> _].
  apply lookup_replicate_2. rewrite length_replicate in Hlen. lia.
Qed.

(** An image that is quiet except for one sample above the start threshold,
    followed in its row by a sample at or below it, gives the all-zero array
    but for that pixel, which holds the raw sample in integrate-only mode
    and the count search of [sample / counts_divisor] otherwise; [rand()] is
    not called. *)
Theorem isolated_sample `{Libm} `{Rand} (fuel : nat) (img : array2)
    (h w : Z) (base level peak : double) (integrate : bool)
    (g : globals) (c : consts) (k j : Z) (p q : float) :
  c = Canonical.scan_consts img (shape1 img) (float_of_double base)
        (float_of_double level) (float_of_double peak) integrate ->
  rectangular h w img -> (Z.to_nat w <= fuel)%nat ->
  0 <= k < h -> 0 <= j -> j + 1 < w ->
  mv_get img k j = Some p -> mv_get img k (j + 1) = Some q ->
  fgt (p - baseline c)%f32 (peak_height c * threshold c)%f32 = true ->
  fle (q - baseline c)%f32 (peak_height c * threshold c)%f32 = true ->
  (forall k' j' p', 0 <= k' < h -> 0 <= j' < w -> (k' <> k \/ j' <> j) ->
     mv_get img k' j' = Some p' ->
     fgt (p' - baseline c)%f32 (peak_height c * threshold c)%f32 = false) ->
  exists res g',
    Canonical.electron_counting fuel img base level peak integrate g
    = Ok (res, g')
    /\ rand_calls g' = rand_calls g
    /\ mv_get res k j
       = Some (if integrate then p
               else Canonical.c_find_most_likely_counts (factorials_table g')
                      (p / counts_divisor c)%f32)
    /\ forall k' j', 0 <= k' < h -> 0 <= j' < w -> (k' <> k \/ j' <> j) ->
         mv_get res k' j' = Some (S754_zero false).
Proof.
  intros Hc Himg Hfuel Hk Hj Hj1 Hp Hq Habove Hbelow Hquiet.
  destruct (rectangular_shape h w img Himg) as (Hi & Hz & Hh & Hw & Hw0).
  pose proof (Hw ltac:(lia)) as Hw1.
  assert (Hwc : width c = w) by (rewrite Hc; exact Hw1).
  assert (Hic : image c = img) by (rewrite Hc; reflexivity).
  assert (Hoc : only_integrate c = integrate) by (rewrite Hc; reflexivity).
  rewrite Hh, Hw1 in Hi, Hz.
  set (g1 := Globals
               (create_factorials_loop (Z.to_nat factorials_table_length) 1
                  factorials_table_length (<[0%nat := 1]> (factorials_table g)))
               (rand_calls g)).
  assert (Hcreate : create_factorials_table factorials_table_length g
                    = Ok (tt, g1)) by reflexivity.
  set (v := if integrate then p
            else Canonical.c_find_most_likely_counts (factorials_table g1)
                   (p / counts_divisor c)%f32).
  destruct (canonical_isolated_row h c k g1 j p q v fuel (zeros img))
    as (res' & Hset & Hrow); rewrite ?Hwc, ?Hic, ?Hoc; try assumption;
    try lia; try reflexivity.
  { intros j' p' Hj' Hne. apply (Hquiet k j' p'); [lia | lia | right; exact Hne]. }
  destruct (mv_set_inside h w (zeros img) k j v Hz Hk ltac:(lia))
    as (res2 & Hset2 & Hres2 & Hget2 & Hother2).
  assert (res2 = res') as -> by congruence.
  exists res', g1. split; [| split; [reflexivity | split]].
  - unfold Canonical.electron_counting, Canonical.c_electron_counting.
    rewrite (bind_eq _ _ _ _ _ Hcreate). rewrite <- Hc.
    replace (Z.to_nat (shape0 img))
      with (Z.to_nat k + S (Z.to_nat (h - k - 1) + 0))%nat by lia.
    rewrite (canonical_quiet_rows_run h c g1 fuel); rewrite ?Hwc, ?Hic;
      try assumption; try lia.
    2: { intros k' j' p' Hk' Hj'. apply Hquiet; lia. }
    cbn [Canonical.scan_rows].
    replace (0 + Z.of_nat (Z.to_nat k)) with k by lia.
    rewrite (bind_eq _ _ _ _ _ Hrow). cbn [result].
    rewrite (canonical_quiet_rows_run h c g1 fuel); rewrite ?Hwc, ?Hic;
      try assumption; try lia; [reflexivity |].
    intros k' j' p' Hk' Hj'. apply Hquiet; lia.
  - exact Hget2.
  - intros k' j' Hk' Hj' Hne. rewrite (Hother2 k' j') by assumption.
    apply (mv_get_zeros h w); assumption.
Qed.

Lemma isolated_sample_witness :
  exists res g',
    Canonical.electron_counting (L := ref_libm) (R := constant_rand 0) 3
      [[px 1 1000; px 1 1; px 2 1000]; [px 0 1; px 3 1000; px 0 1]]
      (py 0 1) (py 1 10) (py 1 1) true initial_globals = Ok (res, g')
    /\ rand_calls g' = rand_calls initial_globals
    /\ mv_get res 0 1
       = Some (if true then px 1 1
               else Canonical.c_find_most_likely_counts (L := ref_libm)
                      (factorials_table g')
                      (px 1 1
                       / counts_divisor
                           (Canonical.scan_consts (L := ref_libm)
                              [[px 1 1000; px 1 1; px 2 1000];
                               [px 0 1; px 3 1000; px 0 1]] 3
                              (px 0 1) (px 1 10) (px 1 1) true))%f32)
    /\ forall k' j', 0 <= k' < 2 -> 0 <= j' < 3 -> (k' <> 0 \/ j' <> 1) ->
         mv_get res k' j' = Some (S754_zero false).
Proof.
  apply (isolated_sample (H := ref_libm) (H0 := constant_rand 0) 3
           [[px 1 1000; px 1 1; px 2 1000]; [px 0 1; px 3 1000; px 0 1]]
           2 3 (py 0 1) (py 1 10) (py 1 1) true initial_globals
           (Canonical.scan_consts (L := ref_libm)
              [[px 1 1000; px 1 1; px 2 1000]; [px 0 1; px 3 1000; px 0 1]] 3
              (px 0 1) (px 1 10) (px 1 1) true)
           0 1 (px 1 1) (px 2 1000)).
  - reflexivity.
  - split; [reflexivity | repeat constructor].
  - vm_compute. lia.
  - lia.
  - lia.
  - lia.
  - reflexivity.
  - reflexivity.
  - vm_compute. reflexivity.
  - vm_compute. reflexivity.
  - intros k' j' p' Hk Hj Hne.
    assert (Hkk : k' = 0 \/ k' = 1) by lia.
    assert (Hjj : j' = 0 \/ j' = 1 \/ j' = 2) by lia.
    destruct Hkk as [-> | ->]; destruct Hjj as [-> | [-> | ->]];
      try (exfalso; lia);
      intros Hp; injection Hp as <-; vm_compute; reflexivity.
Defined.

(** ** A peak that first starts at the last column *)

Lemma mv_set_other_rows (a a' : array2) k j v :
  mv_set a k j v = Some a' -> 0 <= k ->
  forall r, r <> Z.to_nat k -> a' !! r = a !! r.
Proof.
  unfold mv_set, mv_index. intros Hset Hk r Hr.
  destruct (Z.ltb_spec k 0); [lia |].
  destruct (_ && _); [| discriminate].
  destruct (a !! Z.to_nat k) as [row |]; [| discriminate].
  destruct (if _ && _ then _ else None) as [j' |]; [| discriminate].
  injection Hset as <-. apply list_lookup_insert_ne. lia.
Qed.

Lemma canonical_scan_step_other_rows `{Libm} `{Rand} c k s :
  0 <= k ->
  ensures (fun s' => forall r, r <> Z.to_nat k ->
                       result s' !! r = result s !! r)
    (Canonical.scan_step c k s).
Proof.
  intros Hk. unfold Canonical.scan_step.
  apply ensures_bind
    with (P := fun s' => forall r, r <> Z.to_nat k ->
                           result s' !! r = result s !! r).
  - destruct (negb (index s =? -1)); [| apply ensures_ret; reflexivity].
    skip_value.
    destruct (_ || _ || _); [| apply ensures_ret; reflexivity].
    skip_value.
    apply ensures_bind
      with (P := fun res => forall r, r <> Z.to_nat k ->
                              res !! r = result s !! r).
    { apply ensures_lift. intros arr Harr.
      exact (mv_set_other_rows _ _ _ _ _ Harr Hk). }
    intros res Hres. skip_value.
    destruct (fgt _ _); [| apply ensures_ret; exact Hres].
    skip_value. skip_value. apply ensures_ret. exact Hres.
  - intros s1 Hs1.
    apply ensures_bind
      with (P := fun s' => forall r, r <> Z.to_nat k ->
                             result s' !! r = result s !! r).
    + destruct (index s1 =? -1); [| apply ensures_ret; exact Hs1].
      skip_value. destruct (fgt _ _); apply ensures_ret; exact Hs1.
    + intros s2 Hs2. apply ensures_ret. exact Hs2.
Qed.

Lemma canonical_scan_row_other_rows `{Libm} `{Rand} fuel c k : forall s,
  0 <= k ->
  ensures (fun s' => forall r, r <> Z.to_nat k ->
                       result s' !! r = result s !! r)
    (Canonical.scan_row fuel c k s).
Proof.
  induction fuel as [| fuel IH]; intros s Hk; cbn [Canonical.scan_row];
    (destruct (i s <? width c); [| apply ensures_ret; reflexivity]).
  - intros g a g' Hr. discriminate.
  - eapply ensures_bind; [apply canonical_scan_step_other_rows; exact Hk |].
    intros s' Hs'. cbv beta in Hs'.
    eapply ensures_weaken; [apply IH; exact Hk |].
    intros s'' Hs'' r Hr. cbv beta in Hs''.
    rewrite (Hs'' r Hr). exact (Hs' r Hr).
Qed.

Lemma canonical_scan_rows_earlier_rows `{Libm} `{Rand} fuel c n : forall k res,
  0 <= k ->
  ensures (fun final => forall r, Z.of_nat r < k -> final !! r = res !! r)
    (Canonical.scan_rows fuel c n k res).
Proof.
  induction n as [| n IH]; intros k res Hk; cbn [Canonical.scan_rows].
  - apply ensures_ret. reflexivity.
  - eapply ensures_bind; [apply canonical_scan_row_other_rows; exact Hk |].
    intros s Hs. cbv beta in Hs. cbn [result] in Hs.
    eapply ensures_weaken; [apply (IH (k + 1)); lia |].
    intros final Hfinal r Hr. cbv beta in Hfinal.
    rewrite (Hfinal r ltac:(lia)). apply Hs. lia.
Qed.

Lemma canonical_iterations_row `{Libm} `{Rand} c k m : forall s g s' g' fuel,
  iterations (Canonical.scan_step c k) (width c) m s g = Ok (s', g') ->
  Canonical.scan_row (m + fuel) c k s g = Canonical.scan_row fuel c k s' g'.
Proof.
  induction m as [| m IH]; intros s g s' g' fuel Hit.
  - unfold iterations, ret in Hit. by simplify_eq.
  - cbn [iterations] in Hit. change (S m + fuel)%nat with (S (m + fuel)).
    cbn [Canonical.scan_row].
    destruct (Z.ltb_spec (i s) (width c)) as [Hlt | Hge].
    + apply bind_ok in Hit as (s1 & g1 & Hstep & Hrest).
      rewrite (bind_eq _ _ _ _ _ Hstep). apply IH. exact Hrest.
    + unfold ret in Hit. simplify_eq.
      rewrite canonical_scan_row_done by lia. reflexivity.
Qed.

Lemma canonical_scan_rows_app `{Libm} `{Rand} fuel c a b : forall k res g,
  Canonical.scan_rows fuel c (a + b) k res g
  = (let* r := Canonical.scan_rows fuel c a k res in
     Canonical.scan_rows fuel c b (k + Z.of_nat a) r) g.
Proof.
  induction a as [| a IH]; intros k res g.
  - cbn [Nat.add Canonical.scan_rows]. unfold bind, ret.
    replace (k + Z.of_nat 0) with k by lia. reflexivity.
  - change (S a + b)%nat with (S (a + b)). cbn [Canonical.scan_rows].
    unfold bind.
    destruct (Canonical.scan_row fuel c k _ g) as [[s g1] | f]; [| reflexivity].
    rewrite IH. unfold bind.
    replace (k + 1 + Z.of_nat a) with (k + Z.of_nat (S a)) by lia.
    reflexivity.
Qed.

(** The row scan from the state [s] that its first [m] iterations reach, when
    [s] stands at the last column with no peak active and the sample there
    is above the threshold: the step starts a peak in the state, the row's
    loop ends with it, and the loop over the rows goes on from the result
    array of [s] alone. *)
Lemma canonical_last_column_rows `{Libm} `{Rand} (fuel : nat) (c : consts)
    (k : Z) (n m : nat) (res : array2) (g g1 : globals) (s : scan)
    (x : float) :
  iterations (Canonical.scan_step c k) (width c) m
    (Scan 0 (-1) (S754_zero false) (peak_height c) res) g = Ok (s, g1) ->
  (m < fuel)%nat ->
  index s = -1 -> i s = width c - 1 ->
  mv_get (image c) k (i s) = Some x ->
  fgt (x - baseline c)%f32 (peak_max s * threshold c)%f32 = true ->
  Canonical.scan_step c k s g1
  = Ok (Scan (width c) (width c - 1) x (peak_max s) (result s), g1)
  /\ Canonical.scan_row fuel c k
       (Scan 0 (-1) (S754_zero false) (peak_height c) res) g
     = Ok (Scan (width c) (width c - 1) x (peak_max s) (result s), g1)
  /\ Canonical.scan_rows fuel c (S n) k res g
     = Canonical.scan_rows fuel c n (k + 1) (result s) g1.
Proof.
  intros Hit Hfuel Hidx Hi Hx Habove.
  assert (Hw : i s <> -1).
  { intros Hneg. destruct m as [| m]; cbn [iterations i] in Hit.
    - unfold ret in Hit. injection Hit as Hs _. subst s.
      cbn [i] in Hneg. lia.
    - destruct (Z.ltb_spec 0 (width c)); [lia |].
      unfold ret in Hit. injection Hit as Hs _. subst s.
      cbn [i] in Hneg. lia. }
  assert (Hstep : Canonical.scan_step c k s g1
            = Ok (Scan (width c) (width c - 1) x (peak_max s) (result s), g1)).
  { rewrite (canonical_start_step c k s x g1 Hidx Hw Hx Habove).
    rewrite Hi. repeat f_equal. lia. }
  assert (Hrow : Canonical.scan_row fuel c k
                   (Scan 0 (-1) (S754_zero false) (peak_height c) res) g
            = Ok (Scan (width c) (width c - 1) x (peak_max s) (result s), g1)).
  { replace fuel with (m + S (fuel - m - 1))%nat by lia.
    rewrite (canonical_iterations_row c k m _ _ _ _ _ Hit).
    cbn [Canonical.scan_row].
    destruct (Z.ltb_spec (i s) (width c)); [| lia].
    rewrite (bind_eq _ _ _ _ _ Hstep).
    apply canonical_scan_row_done. cbn [i]. lia. }
  split; [exact Hstep |]. split; [exact Hrow |].
  cbn [Canonical.scan_rows]. rewrite (bind_eq _ _ _ _ _ Hrow). reflexivity.
Qed.
Lemma legacy_start_step `{Libm} `{Rand} c k s p g :
  index s = -1 -> i s <> -1 ->
  mv_get (image c) k (i s) = Some p ->
  fge (p - baseline c)%f32 (threshold c) = true ->
  Legacy.scan_step c k s g
  = Ok (Scan (i s + 1) (i s) p (peak_max s) (result s), g).
Proof.
  intros Hidx Hi Hp Habove.
  unfold Legacy.scan_step, bind, lift, ret, fail, rand, get_table.
  rewrite Hidx. change (negb (-1 =? -1)) with false. cbv beta iota.
  rewrite Hidx. change (-1 =? -1) with true. cbv beta iota.
  rewrite Hp. cbv beta iota. rewrite Habove.
  cbn [i index integral peak_max result]. reflexivity.
Qed.

Lemma legacy_scan_row_done `{Libm} `{Rand} fuel c k s g :
  width c <= i s -> Legacy.scan_row fuel c k s g = Ok (s, g).
Proof.
  intros Hi. destruct fuel; cbn [Legacy.scan_row];
    (destruct (Z.ltb_spec (i s) (width c)); [lia | reflexivity]).
Qed.

Lemma legacy_scan_step_other_rows `{Libm} `{Rand} c k s :
  0 <= k ->
  ensures (fun s' => forall r, r <> Z.to_nat k ->
                       result s' !! r = result s !! r)
    (Legacy.scan_step c k s).
Proof.
  intros Hk. unfold Legacy.scan_step.
  apply ensures_bind
    with (P := fun s' => forall r, r <> Z.to_nat k ->
                           result s' !! r = result s !! r).
  - destruct (negb (index s =? -1)); [| apply ensures_ret; reflexivity].
    skip_value.
    destruct (_ || _ || _); [| apply ensures_ret; reflexivity].
    skip_value.
    apply ensures_bind
      with (P := fun res => forall r, r <> Z.to_nat k ->
                              res !! r = result s !! r).
    { apply ensures_lift. intros arr Harr.
      exact (mv_set_other_rows _ _ _ _ _ Harr Hk). }
    intros res Hres. skip_value.
    destruct (fge _ _); [| apply ensures_ret; exact Hres].
    skip_value. skip_value. apply ensures_ret. exact Hres.
  - intros s1 Hs1.
    apply ensures_bind
      with (P := fun s' => forall r, r <> Z.to_nat k ->
                             result s' !! r = result s !! r).
    + destruct (index s1 =? -1); [| apply ensures_ret; exact Hs1].
      skip_value. destruct (fge _ _); apply ensures_ret; exact Hs1.
    + intros s2 Hs2. apply ensures_ret. exact Hs2.
Qed.

Lemma legacy_scan_row_other_rows `{Libm} `{Rand} fuel c k : forall s,
  0 <= k ->
  ensures (fun s' => forall r, r <> Z.to_nat k ->
                       result s' !! r = result s !! r)
    (Legacy.scan_row fuel c k s).
Proof.
  induction fuel as [| fuel IH]; intros s Hk; cbn [Legacy.scan_row];
    (destruct (i s <? width c); [| apply ensures_ret; reflexivity]).
  - intros g a g' Hr. discriminate.
  - eapply ensures_bind; [apply legacy_scan_step_other_rows; exact Hk |].
    intros s' Hs'. cbv beta in Hs'.
    eapply ensures_weaken; [apply IH; exact Hk |].
    intros s'' Hs'' r Hr. cbv beta in Hs''.
    rewrite (Hs'' r Hr). exact (Hs' r Hr).
Qed.

Lemma legacy_scan_rows_earlier_rows `{Libm} `{Rand} fuel c n : forall k res,
  0 <= k ->
  ensures (fun final => forall r, Z.of_nat r < k -> final !! r = res !! r)
    (Legacy.scan_rows fuel c n k res).
Proof.
  induction n as [| n IH]; intros k res Hk; cbn [Legacy.scan_rows].
  - apply ensures_ret. reflexivity.
  - eapply ensures_bind; [apply legacy_scan_row_other_rows; exact Hk |].
    intros s Hs. cbv beta in Hs. cbn [result] in Hs.
    eapply ensures_weaken; [apply (IH (k + 1)); lia |].
    intros final Hfinal r Hr. cbv beta in Hfinal.
    rewrite (Hfinal r ltac:(lia)). apply Hs. lia.
Qed.

Lemma legacy_iterations_row `{Libm} `{Rand} c k m : forall s g s' g' fuel,
  iterations (Legacy.scan_step c k) (width c) m s g = Ok (s', g') ->
  Legacy.scan_row (m + fuel) c k s g = Legacy.scan_row fuel c k s' g'.
Proof.
  induction m as [| m IH]; intros s g s' g' fuel Hit.
  - unfold iterations, ret in Hit. by simplify_eq.
  - cbn [iterations] in Hit. change (S m + fuel)%nat with (S (m + fuel)).
    cbn [Legacy.scan_row].
    destruct (Z.ltb_spec (i s) (width c)) as [Hlt | Hge].
    + apply bind_ok in Hit as (s1 & g1 & Hstep & Hrest).
      rewrite (bind_eq _ _ _ _ _ Hstep). apply IH. exact Hrest.
    + unfold ret in Hit. simplify_eq.
      rewrite legacy_scan_row_done by lia. reflexivity.
Qed.

Lemma legacy_scan_rows_app `{Libm} `{Rand} fuel c a b : forall k res g,
  Legacy.scan_rows fuel c (a + b) k res g
  = (let* r := Legacy.scan_rows fuel c a k res in
     Legacy.scan_rows fuel c b (k + Z.of_nat a) r) g.
Proof.
  induction a as [| a IH]; intros k res g.
  - cbn [Nat.add Legacy.scan_rows]. unfold bind, ret.
    replace (k + Z.of_nat 0) with k by lia. reflexivity.
  - change (S a + b)%nat with (S (a + b)). cbn [Legacy.scan_rows].
    unfold bind.
    destruct (Legacy.scan_row fuel c k _ g) as [[s g1] | f]; [| reflexivity].
    rewrite IH. unfold bind.
    replace (k + 1 + Z.of_nat a) with (k + Z.of_nat (S a)) by lia.
    reflexivity.
Qed.

(** The row scan from the state [s] that its first [m] iterations reach, when
    [s] stands at the last column with no peak active and the sample there
    is above the threshold: the step starts a peak in the state, the row's
    loop ends with it, and the loop over the rows goes on from the result
    array of [s] alone. *)
Lemma legacy_last_column_rows `{Libm} `{Rand} (fuel : nat) (c : consts)
    (k : Z) (n m : nat) (res : array2) (g g1 : globals) (s : scan)
    (x : float) :
  iterations (Legacy.scan_step c k) (width c) m
    (Scan 0 (-1) (S754_zero false) (S754_zero false) res) g = Ok (s, g1) ->
  (m < fuel)%nat ->
  index s = -1 -> i s = width c - 1 ->
  mv_get (image c) k (i s) = Some x ->
  fge (x - baseline c)%f32 (threshold c) = true ->
  Legacy.scan_step c k s g1
  = Ok (Scan (width c) (width c - 1) x (peak_max s) (result s), g1)
  /\ Legacy.scan_row fuel c k
       (Scan 0 (-1) (S754_zero false) (S754_zero false) res) g
     = Ok (Scan (width c) (width c - 1) x (peak_max s) (result s), g1)
  /\ Legacy.scan_rows fuel c (S n) k res g
     = Legacy.scan_rows fuel c n (k + 1) (result s) g1.
Proof.
  intros Hit Hfuel Hidx Hi Hx Habove.
  assert (Hw : i s <> -1).
  { intros Hneg. destruct m as [| m]; cbn [iterations i] in Hit.
    - unfold ret in Hit. injection Hit as Hs _. subst s.
      cbn [i] in Hneg. lia.
    - destruct (Z.ltb_spec 0 (width c)); [lia |].
      unfold ret in Hit. injection Hit as Hs _. subst s.
      cbn [i] in Hneg. lia. }
  assert (Hstep : Legacy.scan_step c k s g1
            = Ok (Scan (width c) (width c - 1) x (peak_max s) (result s), g1)).
  { rewrite (legacy_start_step c k s x g1 Hidx Hw Hx Habove).
    rewrite Hi. repeat f_equal. lia. }
  assert (Hrow : Legacy.scan_row fuel c k
                   (Scan 0 (-1) (S754_zero false) (S754_zero false) res) g
            = Ok (Scan (width c) (width c - 1) x (peak_max s) (result s), g1)).
  { replace fuel with (m + S (fuel - m - 1))%nat by lia.
    rewrite (legacy_iterations_row c k m _ _ _ _ _ Hit).
    cbn [Legacy.scan_row].
    destruct (Z.ltb_spec (i s) (width c)); [| lia].
    rewrite (bind_eq _ _ _ _ _ Hstep).
    apply legacy_scan_row_done. cbn [i]. lia. }
  split; [exact Hstep |]. split; [exact Hrow |].
  cbn [Legacy.scan_rows]. rewrite (bind_eq _ _ _ _ _ Hrow). reflexivity.
Qed.
(** C10: in [electron_counting] (both modules), when the scan of row [k]
    reaches the last column with no peak active and the sample there is above
    the threshold, the step starts a peak in the scan state and leaves the
    result array alone; the row's loop ends there, with the peak still open;
    the loop over the rows drops that state and goes on with the next row
    from the result array as it was; and in the array that the call returns,
    row [k] and the rows before it are what they were when the peak started:
    nothing is written for it. *)
Theorem C10_peak_started_at_last_column `{Libm} `{Rand} (fuel : nat)
    (img : array2) (base level peak : double) (integrate : bool)
    (k : Z) (n m : nat) (res : array2) (g gk g1 : globals) (s : scan)
    (x : float) :
  0 <= k -> Z.to_nat (shape0 img) = (Z.to_nat k + S n)%nat ->
  (m < fuel)%nat ->
  index s = -1 -> i s = shape1 img - 1 ->
  mv_get img k (i s) = Some x ->
  (let c := Canonical.scan_consts img (shape1 img) (float_of_double base)
              (float_of_double level) (float_of_double peak) integrate in
   (let* _ := create_factorials_table factorials_table_length in
    Canonical.scan_rows fuel c (Z.to_nat k) 0 (zeros img)) g = Ok (res, gk) ->
   iterations (Canonical.scan_step c k) (width c) m
     (Scan 0 (-1) (S754_zero false) (peak_height c) res) gk = Ok (s, g1) ->
   fgt (x - baseline c)%f32 (peak_max s * threshold c)%f32 = true ->
   Canonical.scan_step c k s g1
   = Ok (Scan (width c) (width c - 1) x (peak_max s) (result s), g1)
   /\ Canonical.scan_row fuel c k
        (Scan 0 (-1) (S754_zero false) (peak_height c) res) gk
      = Ok (Scan (width c) (width c - 1) x (peak_max s) (result s), g1)
   /\ Canonical.electron_counting fuel img base level peak integrate g
      = Canonical.scan_rows fuel c n (k + 1) (result s) g1
   /\ forall final g',
        Canonical.electron_counting fuel img base level peak integrate g
        = Ok (final, g') ->
        forall r, (r <= Z.to_nat k)%nat -> final !! r = result s !! r)
  /\ (let c := Legacy.scan_consts img (shape1 img) (float_of_double base)
                 (float_of_double level) (float_of_double peak) in
      (let* _ := create_factorials_table factorials_table_length in
       Legacy.scan_rows fuel c (Z.to_nat k) 0 (zeros img)) g = Ok (res, gk) ->
      iterations (Legacy.scan_step c k) (width c) m
        (Scan 0 (-1) (S754_zero false) (S754_zero false) res) gk
      = Ok (s, g1) ->
      fge (x - baseline c)%f32 (threshold c) = true ->
      Legacy.scan_step c k s g1
      = Ok (Scan (width c) (width c - 1) x (peak_max s) (result s), g1)
      /\ Legacy.scan_row fuel c k
           (Scan 0 (-1) (S754_zero false) (S754_zero false) res) gk
         = Ok (Scan (width c) (width c - 1) x (peak_max s) (result s), g1)
      /\ Legacy.electron_counting fuel img base level peak g
         = Legacy.scan_rows fuel c n (k + 1) (result s) g1
      /\ forall final g',
           Legacy.electron_counting fuel img base level peak g
           = Ok (final, g') ->
           forall r, (r <= Z.to_nat k)%nat -> final !! r = result s !! r).
Proof.
  intros Hk Hn Hm Hidx Hi Hx. split; intros c Hbefore Hit Habove.
  - apply bind_ok in Hbefore as (u & g0 & Hcreate & Hrows).
    destruct (canonical_last_column_rows fuel c k n m res gk g1 s x
                Hit Hm Hidx Hi Hx Habove) as (Hstep & Hrow & Hrest).
    assert (Hrun :
      Canonical.electron_counting fuel img base level peak integrate g
      = Canonical.scan_rows fuel c n (k + 1) (result s) g1).
    { unfold Canonical.electron_counting, Canonical.c_electron_counting.
      rewrite (bind_eq _ _ _ _ _ Hcreate), Hn.
      fold c. rewrite canonical_scan_rows_app.
      rewrite (bind_eq _ _ _ _ _ Hrows).
      replace (0 + Z.of_nat (Z.to_nat k)) with k by lia. exact Hrest. }
    split; [exact Hstep |]. split; [exact Hrow |]. split; [exact Hrun |].
    intros final g' Hfinal r Hr. rewrite Hrun in Hfinal.
    apply (canonical_scan_rows_earlier_rows fuel c n (k + 1) (result s)
             ltac:(lia) g1 final g' Hfinal).
    lia.
  - apply bind_ok in Hbefore as (u & g0 & Hcreate & Hrows).
    destruct (legacy_last_column_rows fuel c k n m res gk g1 s x
                Hit Hm Hidx Hi Hx Habove) as (Hstep & Hrow & Hrest).
    assert (Hrun :
      Legacy.electron_counting fuel img base level peak g
      = Legacy.scan_rows fuel c n (k + 1) (result s) g1).
    { unfold Legacy.electron_counting, Legacy.c_electron_counting.
      rewrite (bind_eq _ _ _ _ _ Hcreate), Hn.
      fold c. rewrite legacy_scan_rows_app.
      rewrite (bind_eq _ _ _ _ _ Hrows).
      replace (0 + Z.of_nat (Z.to_nat k)) with k by lia. exact Hrest. }
    split; [exact Hstep |]. split; [exact Hrow |]. split; [exact Hrun |].
    intros final g' Hfinal r Hr. rewrite Hrun in Hfinal.
    apply (legacy_scan_rows_earlier_rows fuel c n (k + 1) (result s)
             ltac:(lia) g1 final g' Hfinal).
    lia.
Qed.

Lemma C10_peak_started_at_last_column_witness :
  (let c := Canonical.scan_consts (L := ref_libm) rows_pulse_at_last_column
              (shape1 rows_pulse_at_last_column) (float_of_double (py 0 1))
              (float_of_double (py 1 10)) (float_of_double (py 1 1)) true in
   let s := Scan 2 (-1) (S754_zero false) (peak_height c)
              [[px 0 1; px 1 1; px 0 1];
               [px 0 1; px 0 1; px 0 1];
               [px 0 1; px 0 1; px 0 1]] in
   Canonical.scan_step (L := ref_libm) (R := constant_rand 0) c 1 s
     table_built
   = Ok (Scan (width c) (width c - 1) (px 1 1) (peak_max s) (result s),
         table_built)
   /\ Canonical.scan_row (L := ref_libm) (R := constant_rand 0) 10 c 1
        (Scan 0 (-1) (S754_zero false) (peak_height c)
           [[px 0 1; px 1 1; px 0 1];
            [px 0 1; px 0 1; px 0 1];
            [px 0 1; px 0 1; px 0 1]]) table_built
      = Ok (Scan (width c) (width c - 1) (px 1 1) (peak_max s) (result s),
            table_built)
   /\ Canonical.electron_counting (L := ref_libm) (R := constant_rand 0) 10
        rows_pulse_at_last_column (py 0 1) (py 1 10) (py 1 1) true
        initial_globals
      = Canonical.scan_rows (L := ref_libm) (R := constant_rand 0) 10 c 1
          (1 + 1) (result s) table_built
   /\ forall final g',
        Canonical.electron_counting (L := ref_libm) (R := constant_rand 0) 10
          rows_pulse_at_last_column (py 0 1) (py 1 10) (py 1 1) true
          initial_globals
        = Ok (final, g') ->
        forall r, (r <= Z.to_nat 1)%nat -> final !! r = result s !! r)
  /\ (let c := Legacy.scan_consts (L := ref_libm) rows_pulse_at_last_column
                 (shape1 rows_pulse_at_last_column)
                 (float_of_double (py 2 1000)) (float_of_double (py 1 100))
                 (float_of_double (py 1 1)) in
      let s := Scan 2 (-1) (S754_zero false) (S754_zero false)
                 [[px 0 1; px 20 1; px 0 1];
                  [px 0 1; px 0 1; px 0 1];
                  [px 0 1; px 0 1; px 0 1]] in
      Legacy.scan_step (L := ref_libm) (R := constant_rand 0) c 1 s
        table_built
      = Ok (Scan (width c) (width c - 1) (px 1 1) (peak_max s) (result s),
            table_built)
      /\ Legacy.scan_row (L := ref_libm) (R := constant_rand 0) 10 c 1
           (Scan 0 (-1) (S754_zero false) (S754_zero false)
              [[px 0 1; px 20 1; px 0 1];
               [px 0 1; px 0 1; px 0 1];
               [px 0 1; px 0 1; px 0 1]]) table_built
         = Ok (Scan (width c) (width c - 1) (px 1 1) (peak_max s) (result s),
               table_built)
      /\ Legacy.electron_counting (L := ref_libm) (R := constant_rand 0) 10
           rows_pulse_at_last_column (py 2 1000) (py 1 100) (py 1 1)
           initial_globals
         = Legacy.scan_rows (L := ref_libm) (R := constant_rand 0) 10 c 1
             (1 + 1) (result s) table_built
      /\ forall final g',
           Legacy.electron_counting (L := ref_libm) (R := constant_rand 0) 10
             rows_pulse_at_last_column (py 2 1000) (py 1 100) (py 1 1)
             initial_globals
           = Ok (final, g') ->
           forall r, (r <= Z.to_nat 1)%nat -> final !! r = result s !! r)
  /\ Canonical.electron_counting (L := ref_libm) (R := constant_rand 0) 10
       rows_pulse_at_last_column (py 0 1) (py 1 10) (py 1 1) true
       initial_globals
     = Ok ([[px 0 1; px 1 1; px 0 1];
            [px 0 1; px 0 1; px 0 1];
            [px 0 1; px 1 1; px 0 1]], table_built)
  /\ Legacy.electron_counting (L := ref_libm) (R := constant_rand 0) 10
       rows_pulse_at_last_column (py 2 1000) (py 1 100) (py 1 1)
       initial_globals
     = Ok ([[px 0 1; px 20 1; px 0 1];
            [px 0 1; px 0 1; px 0 1];
            [px 0 1; px 20 1; px 0 1]], table_built).
Proof.
  split; [| split; [| split; vm_compute; reflexivity]].
  - refine (proj1 (C10_peak_started_at_last_column (H := ref_libm)
                     (H0 := constant_rand 0) 10 rows_pulse_at_last_column
                     (py 0 1) (py 1 10) (py 1 1) true 1 1 2
                     [[px 0 1; px 1 1; px 0 1];
                      [px 0 1; px 0 1; px 0 1];
                      [px 0 1; px 0 1; px 0 1]]
                     initial_globals table_built table_built
                     (Scan 2 (-1) (S754_zero false)
                        (peak_height
                           (Canonical.scan_consts (L := ref_libm)
                              rows_pulse_at_last_column
                              (shape1 rows_pulse_at_last_column)
                              (float_of_double (py 0 1))
                              (float_of_double (py 1 10))
                              (float_of_double (py 1 1)) true))
                        [[px 0 1; px 1 1; px 0 1];
                         [px 0 1; px 0 1; px 0 1];
                         [px 0 1; px 0 1; px 0 1]])
                     (px 1 1) _ _ _ _ _ _) _ _ _);
      first [vm_compute; reflexivity | lia].
  - refine (proj2 (C10_peak_started_at_last_column (H := ref_libm)
                     (H0 := constant_rand 0) 10 rows_pulse_at_last_column
                     (py 2 1000) (py 1 100) (py 1 1) true 1 1 2
                     [[px 0 1; px 20 1; px 0 1];
                      [px 0 1; px 0 1; px 0 1];
                      [px 0 1; px 0 1; px 0 1]]
                     initial_globals table_built table_built
                     (Scan 2 (-1) (S754_zero false) (S754_zero false)
                        [[px 0 1; px 20 1; px 0 1];
                         [px 0 1; px 0 1; px 0 1];
                         [px 0 1; px 0 1; px 0 1]])
                     (px 1 1) _ _ _ _ _ _) _ _ _);
      first [vm_compute; reflexivity | lia].
Defined.
